(** * Swim-meet program parser: a shallow embedding of [pdf_to_heats_xlsx.py]

    The development follows the source file top to bottom:

    - [Py]      the Python built-ins the parser calls ([str.strip],
                [str.split], [str.upper], [int], ...), on 8-bit text;
    - [Re]      a backtracking matcher with the priorities of Python's [re]
                (leftmost match, first alternative first, greedy
                repetition), and [re.match] / [re.search] / [re.sub];
    - [Dates]   the part of [datetime] that title inference uses;
    - the parser itself: [normalise_name], [stroke_to_code],
      [parse_event_header], [clean_heat_label], [parse_heat_label],
      [parse_lane_line], [parse_alternate_line], [infer_day_title] and the
      line-by-line state machine of [parse_pdf];
    - the properties.

    Text is a list of 8-bit characters.  The character classes and the case
    maps are Python's on ASCII; the two Unicode dashes that
    [clean_heat_label] rewrites appear as their UTF-8 byte sequences.
    Beyond ASCII Python folds more letters under [re.IGNORECASE] (the
    dotless i, the long s, the Kelvin sign) than this matcher does; a
    property that would fail there is stated for [Py.isascii] text.

    [Py.int] is the value of a digit string.  CPython's [int] refuses a
    string of more than 4300 digits with [ValueError]: [Raising.int] has
    that path, and [Raising.parse_event_header] and
    [Raising.parse_alternate_line] are the two extraction functions with
    it.  [parse_event_header] and [parse_alternate_line] give what the
    source returns when [int] accepts the number; the loop of [parse_pdf]
    has no handler, so [step] and [parse_lines] describe the runs in which
    no call raises. *)

From Stdlib Require Import ZArith List Ascii String Bool Lia.
From stdpp Require Import base option list gmap.

Local Open Scope list_scope.
Local Open Scope bool_scope.

(** Text of the program: a list of characters. *)
Abbreviation str := (list ascii).

(** A literal of the source, as text. *)
Definition s (x : string) : str := list_ascii_of_string x.

(* ===================================================================== *)
(** ** Python built-ins on text *)
(* ===================================================================== *)

Module Py.

Definition code (c : ascii) : N := N_of_ascii c.

Definition in_range (lo hi : N) (c : ascii) : bool :=
  (lo <=? code c)%N && (code c <=? hi)%N.

(** [str.isspace] on ASCII: tab, LF, VT, FF, CR, FS, GS, RS, US, space. *)
Definition is_space (c : ascii) : bool :=
  in_range 9 13 c || in_range 28 32 c.

Definition is_digit (c : ascii) : bool := in_range 48 57 c.
Definition is_upper (c : ascii) : bool := in_range 65 90 c.
Definition is_lower (c : ascii) : bool := in_range 97 122 c.

(** A word character of [re]: letter, digit or underscore. *)
Definition is_word (c : ascii) : bool :=
  is_digit c || is_upper c || is_lower c || (code c =? 95)%N.

Definition upper_char (c : ascii) : ascii :=
  if is_lower c then ascii_of_N (code c - 32) else c.

Definition lower_char (c : ascii) : ascii :=
  if is_upper c then ascii_of_N (code c + 32) else c.

Definition upper (x : str) : str := map upper_char x.
Definition lower (x : str) : str := map lower_char x.

Definition eqb_char (a b : ascii) : bool := (code a =? code b)%N.

Fixpoint eqb_str (x y : str) : bool :=
  match x, y with
  | [], [] => true
  | a :: x', b :: y' => eqb_char a b && eqb_str x' y'
  | _, _ => false
  end.

(** [x.startswith(p)] *)
Fixpoint startswith (p x : str) : bool :=
  match p, x with
  | [], _ => true
  | a :: p', b :: x' => eqb_char a b && startswith p' x'
  | _ :: _, [] => false
  end.

(** [p in x] *)
Fixpoint contains (p x : str) : bool :=
  startswith p x ||
  match x with
  | [] => false
  | _ :: x' => contains p x'
  end.

Fixpoint lstrip_by (f : ascii -> bool) (x : str) : str :=
  match x with
  | c :: x' => if f c then lstrip_by f x' else x
  | [] => []
  end.

Definition rstrip_by (f : ascii -> bool) (x : str) : str :=
  rev (lstrip_by f (rev x)).

(** [x.strip()] *)
Definition strip (x : str) : str := rstrip_by is_space (lstrip_by is_space x).

Definition mem_char (cs : str) (c : ascii) : bool := existsb (eqb_char c) cs.

(** [x.rstrip(cs)] *)
Definition rstrip_chars (cs : str) (x : str) : str := rstrip_by (mem_char cs) x.

(** [x.split()]: the maximal runs of non-whitespace characters.  [cur] is
    the run being read, reversed. *)
Fixpoint split_go (cur : str) (x : str) : list str :=
  match x with
  | [] => match cur with [] => [] | _ => [rev cur] end
  | c :: x' =>
      if is_space c
      then match cur with
           | [] => split_go [] x'
           | _ => rev cur :: split_go [] x'
           end
      else split_go (c :: cur) x'
  end.

Definition split (x : str) : list str := split_go [] x.

(** [sep.join(xs)] *)
Fixpoint join (sep : str) (xs : list str) : str :=
  match xs with
  | [] => []
  | [x] => x
  | x :: xs' => x ++ sep ++ join sep xs'
  end.

(** [x.replace(old, new)] for a non-empty [old]: occurrences are taken left
    to right and do not overlap.  [skip] counts the characters of an
    occurrence still to be dropped. *)
Fixpoint replace_go (old new : str) (skip : nat) (x : str) : str :=
  match x with
  | [] => []
  | c :: x' =>
      match skip with
      | S n => replace_go old new n x'
      | O =>
          if startswith old x
          then new ++ replace_go old new (length old - 1) x'
          else c :: replace_go old new 0 x'
      end
  end.

Definition replace (old new x : str) : str := replace_go old new 0 x.

(** Line boundaries of [str.splitlines] on ASCII: LF, VT, FF, CR, FS, GS,
    RS; CR LF counts once. *)
Definition is_linebreak (c : ascii) : bool :=
  in_range 10 13 c || in_range 28 30 c.

Fixpoint splitlines_go (cur : str) (x : str) : list str :=
  match x with
  | [] => match cur with [] => [] | _ => [rev cur] end
  | c :: x' =>
      if is_linebreak c
      then rev cur ::
           match x' with
           | d :: x'' =>
               if (code c =? 13)%N && (code d =? 10)%N
               then splitlines_go [] x''
               else splitlines_go [] x'
           | [] => []
           end
      else splitlines_go (c :: cur) x'
  end.

Definition splitlines (x : str) : list str := splitlines_go [] x.

Definition digit_val (c : ascii) : Z := Z.of_N (code c) - 48.

(** [int(x)] for a string of decimal digits. *)
Definition int (x : str) : Z :=
  fold_left (fun acc c => 10 * acc + digit_val c)%Z x 0%Z.

(** [x.isdigit()] on ASCII. *)
Definition isdigit (x : str) : bool :=
  match x with [] => false | _ => forallb is_digit x end.

Definition digit_char (d : Z) : ascii := ascii_of_N (Z.to_N (d + 48)).

(** [str(n)] for [n >= 0]; [fuel] bounds the number of digits. *)
Fixpoint digits_go (fuel : nat) (n : Z) (acc : str) : str :=
  match fuel with
  | O => acc
  | S f =>
      let acc' := digit_char (n mod 10) :: acc in
      if (n <? 10)%Z then acc' else digits_go f (n / 10)%Z acc'
  end.

Definition str_of_nonneg (n : Z) : str :=
  digits_go (S (Z.to_nat (Z.log2 n))) n [].

(** [str(n)] *)
Definition str_of_int (n : Z) : str :=
  if (n <? 0)%Z then "-"%char :: str_of_nonneg (- n) else str_of_nonneg n.

(** [f"{n:0{w}d}"] for [n >= 0]. *)
Definition zero_pad (w : nat) (n : Z) : str :=
  let d := str_of_nonneg n in
  repeat "0"%char (w - length d) ++ d.

(** [x.isascii()] *)
Definition isascii (x : str) : bool := forallb (fun c => (code c <? 128)%N) x.

(** [sys.int_info.default_max_str_digits]: the longest digit string that
    [int] converts. *)
Definition MAX_STR_DIGITS : Z := 4300.

End Py.

(* ===================================================================== *)
(** ** Regular expressions with the priorities of Python's [re] *)
(* ===================================================================== *)

Module Re.

(** Sets of characters. *)
Inductive cset : Type :=
  | CChar (a : ascii)            (* a literal character *)
  | CRange (lo hi : ascii)       (* [lo-hi] *)
  | COneOf (l : str)             (* [abc] *)
  | CDigit                       (* \d *)
  | CSpace                       (* \s *)
  | CNotSpace                    (* \S *)
  | CDot.                        (* . : anything but a newline *)

(** The patterns of the source.  Repetition is only ever applied to a
    single character set there, except for [?], which also wraps a
    group. *)
Inductive regex : Type :=
  | Eps
  | Chr (c : cset)
  | Seq (r1 r2 : regex)
  | Alt (r1 r2 : regex)                        (* r1|r2 *)
  | Opt (r : regex)                            (* r? *)
  | Rep (c : cset) (lo : nat) (hi : option nat) (* c{lo,hi}, c*, c+ *)
  | Grp (n : nat) (r : regex)                  (* capturing group n *)
  | Bol                                        (* ^ *)
  | Eol                                        (* $ *)
  | Wordb.                                     (* \b *)

Definition cs_base (c : cset) (a : ascii) : bool :=
  match c with
  | CChar b => Py.eqb_char a b
  | CRange lo hi => Py.in_range (Py.code lo) (Py.code hi) a
  | COneOf l => Py.mem_char l a
  | CDigit => Py.is_digit a
  | CSpace => Py.is_space a
  | CNotSpace => negb (Py.is_space a)
  | CDot => negb (Py.eqb_char a "010"%char)
  end.

(** [ic] is the flag [re.IGNORECASE]. *)
Definition cs_match (ic : bool) (c : cset) (a : ascii) : bool :=
  cs_base c a ||
  (ic && (cs_base c (Py.lower_char a) || cs_base c (Py.upper_char a))).

(** A position in the subject: the text before it (reversed), the text
    after it, and the groups captured so far, most recent first. *)
Record mstate : Type := MState {
  pre : str;
  suf : str;
  caps : list (nat * str)
}.

Definition at_word_boundary (p q : str) : bool :=
  xorb (match p with c :: _ => Py.is_word c | [] => false end)
       (match q with c :: _ => Py.is_word c | [] => false end).

(** [$] without [re.MULTILINE]: at the end, or before a final newline. *)
Definition at_eol (q : str) : bool :=
  match q with
  | [] => true
  | [c] => Py.eqb_char c "010"%char
  | _ => false
  end.

Definition orelse {A} (x : option A) (y : option A) : option A :=
  match x with Some _ => x | None => y end.

(** Greedy repetition of one character set: take as many characters as
    allowed, give back one at a time. *)
Fixpoint rep {A} (f : ascii -> bool) (lo : nat) (hi : option nat)
    (p q : str) (k : str -> str -> option A) : option A :=
  let stop := match lo with O => k p q | S _ => None end in
  match q with
  | c :: q' =>
      if f c && negb (match hi with Some O => true | _ => false end)
      then orelse (rep f (Nat.pred lo) (option_map Nat.pred hi) (c :: p) q' k)
                  stop
      else stop
  | [] => stop
  end.

(** The text consumed between two positions of one subject. *)
Definition consumed (p0 p1 : str) : str :=
  rev (firstn (length p1 - length p0) p1).

(** The matcher, in continuation-passing style: [k] is what remains to be
    matched; a [None] from [k] makes the matcher try its next choice. *)
Fixpoint exec (ic : bool) (r : regex) (st : mstate)
    (k : mstate -> option mstate) : option mstate :=
  match r with
  | Eps => k st
  | Chr c =>
      match suf st with
      | a :: q' =>
          if cs_match ic c a then k (MState (a :: pre st) q' (caps st))
          else None
      | [] => None
      end
  | Seq r1 r2 => exec ic r1 st (fun st1 => exec ic r2 st1 k)
  | Alt r1 r2 => orelse (exec ic r1 st k) (exec ic r2 st k)
  | Opt r1 => orelse (exec ic r1 st k) (k st)
  | Rep c lo hi =>
      rep (cs_match ic c) lo hi (pre st) (suf st)
          (fun p q => k (MState p q (caps st)))
  | Grp n r1 =>
      exec ic r1 st
        (fun st1 =>
           k (MState (pre st1) (suf st1)
                     ((n, consumed (pre st) (pre st1)) :: caps st1)))
  | Bol => match pre st with [] => k st | _ => None end
  | Eol => if at_eol (suf st) then k st else None
  | Wordb => if at_word_boundary (pre st) (suf st) then k st else None
  end.

(** A match object. *)
Record rmatch : Type := RMatch {
  m_before : str;               (* subject[:m.start()] *)
  m_text : str;                 (* m.group(0) *)
  m_after : str;                (* subject[m.end():] *)
  m_caps : list (nat * str)
}.

Fixpoint lookup_cap (n : nat) (l : list (nat * str)) : option str :=
  match l with
  | [] => None
  | (i, x) :: l' => if Nat.eqb i n then Some x else lookup_cap n l'
  end.

(** [m.group(n)] for a group that took part in the match. *)
Definition group (m : rmatch) (n : nat) : str :=
  match lookup_cap n (m_caps m) with Some x => x | None => [] end.

(** A match attempt that starts at the position [(p, q)]. *)
Definition match_at (ic : bool) (r : regex) (p q : str) : option rmatch :=
  match exec ic r (MState p q []) Some with
  | Some st => Some (RMatch (rev p) (consumed p (pre st)) (suf st) (caps st))
  | None => None
  end.

(** [re.match(r, x)] *)
Definition match_ (ic : bool) (r : regex) (x : str) : option rmatch :=
  match_at ic r [] x.

Fixpoint search_go (ic : bool) (r : regex) (p q : str) : option rmatch :=
  match match_at ic r p q with
  | Some m => Some m
  | None =>
      match q with
      | c :: q' => search_go ic r (c :: p) q'
      | [] => None
      end
  end.

(** [re.search(r, x)] *)
Definition search (ic : bool) (r : regex) (x : str) : option rmatch :=
  search_go ic r [] x.

(** A replacement template: literal text and group references. *)
Inductive ritem : Type :=
  | RLit (x : str)
  | RRef (n : nat).

Definition expand (repl : list ritem) (m : rmatch) : str :=
  flat_map (fun i => match i with RLit x => x | RRef n => group m n end) repl.

(** [re.sub(r, repl, x)]: the matches are taken left to right and do not
    overlap.  [skip] counts the characters of the current match that are
    still to be passed over.  No pattern of the source matches the empty
    string; after an empty match the next character is copied. *)
Fixpoint sub_go (ic : bool) (r : regex) (repl : list ritem)
    (skip : nat) (p q : str) : str :=
  match skip with
  | S n =>
      match q with
      | c :: q' => sub_go ic r repl n (c :: p) q'
      | [] => []
      end
  | O =>
      match match_at ic r p q with
      | Some m =>
          expand repl m ++
          match q with
          | c :: q' =>
              match length (m_text m) with
              | O => c :: sub_go ic r repl 0 (c :: p) q'
              | S n => sub_go ic r repl n (c :: p) q'
              end
          | [] => []
          end
      | None =>
          match q with
          | c :: q' => c :: sub_go ic r repl 0 (c :: p) q'
          | [] => []
          end
      end
  end.

Definition sub (ic : bool) (r : regex) (repl : list ritem) (x : str) : str :=
  sub_go ic r repl 0 [] x.

(** *** Writing patterns *)

Definition chr (c : ascii) : regex := Chr (CChar c).
Definition star (c : cset) : regex := Rep c 0 None.        (* c* *)
Definition plus (c : cset) : regex := Rep c 1 None.        (* c+ *)
Definition upto (c : cset) (lo hi : nat) : regex := Rep c lo (Some hi).

Fixpoint cat (rs : list regex) : regex :=
  match rs with
  | [] => Eps
  | [r] => r
  | r :: rs' => Seq r (cat rs')
  end.

Fixpoint alts (rs : list regex) : regex :=
  match rs with
  | [] => Eps
  | [r] => r
  | r :: rs' => Alt r (alts rs')
  end.

(** A literal word. *)
Definition lit (x : string) : regex := cat (map chr (s x)).

(** *** What a successful match means

    [den ic r st st'] : the pattern [r] can take the matcher from the
    position [st] to the position [st'].  It forgets the priorities, and is
    used to read the shape of the subject off a successful match. *)
Fixpoint den (ic : bool) (r : regex) (st st' : mstate) : Prop :=
  match r with
  | Eps => st' = st
  | Chr c =>
      exists a, suf st = a :: suf st' /\ cs_match ic c a = true /\
                pre st' = a :: pre st /\ caps st' = caps st
  | Seq r1 r2 => exists st1, den ic r1 st st1 /\ den ic r2 st1 st'
  | Alt r1 r2 => den ic r1 st st' \/ den ic r2 st st'
  | Opt r1 => den ic r1 st st' \/ st' = st
  | Rep c lo hi =>
      exists w, suf st = w ++ suf st' /\ pre st' = rev w ++ pre st /\
                caps st' = caps st /\
                forallb (cs_match ic c) w = true /\
                (lo <= length w)%nat /\
                match hi with Some h => (length w <= h)%nat | None => True end
  | Grp n r1 =>
      exists st1, den ic r1 st st1 /\
                  st' = MState (pre st1) (suf st1)
                               ((n, consumed (pre st) (pre st1)) :: caps st1)
  | Bol => pre st = [] /\ st' = st
  | Eol => at_eol (suf st) = true /\ st' = st
  | Wordb => at_word_boundary (pre st) (suf st) = true /\ st' = st
  end.

End Re.

(* ===================================================================== *)
(** ** The part of [datetime] used by title inference *)
(* ===================================================================== *)

Module Dates.

(** What a call of the standard library can raise here. *)
Inductive exn : Type := ValueError | OverflowError | IndexError.

Inductive result (A : Type) : Type :=
  | Ok (a : A)
  | Raise (e : exn).
Arguments Ok {A} a.
Arguments Raise {A} e.

Definition bind {A B} (x : result A) (f : A -> result B) : result B :=
  match x with Ok a => f a | Raise e => Raise e end.

Local Open Scope Z_scope.

Record date : Type := Date { year : Z; month : Z; day : Z }.

Definition is_leap (y : Z) : bool :=
  (y mod 4 =? 0) && (negb (y mod 100 =? 0) || (y mod 400 =? 0)).

Definition days_in_month (y m : Z) : Z :=
  if m =? 2 then (if is_leap y then 29 else 28)
  else if (m =? 4) || (m =? 6) || (m =? 9) || (m =? 11) then 30
  else 31.

Definition days_before_year (y : Z) : Z :=
  let y1 := y - 1 in y1 * 365 + y1 / 4 - y1 / 100 + y1 / 400.

Fixpoint days_before_month_go (y : Z) (n : nat) (m : Z) : Z :=
  match n with
  | O => 0
  | S n' => days_in_month y m + days_before_month_go y n' (m + 1)
  end.

(** Days of the year [y] before the first of month [m]. *)
Definition days_before_month (y m : Z) : Z :=
  days_before_month_go y (Z.to_nat (m - 1)) 1.

(** [date.toordinal]: 1 January of year 1 is day 1. *)
Definition toordinal (d : date) : Z :=
  days_before_year (year d) + days_before_month (year d) (month d) + day d.

Definition max_ordinal : Z := 3652059.   (* date(9999, 12, 31).toordinal() *)

Fixpoint month_of_go (y : Z) (n : nat) (m : Z) (k : Z) : Z * Z :=
  match n with
  | O => (m, k)
  | S n' =>
      let dim := days_in_month y m in
      if k <? dim then (m, k) else month_of_go y n' (m + 1) (k - dim)
  end.

(** [date.fromordinal] for [1 <= n <= max_ordinal]. *)
Definition fromordinal (n : Z) : date :=
  let n0 := n - 1 in
  let n400 := n0 / 146097 in
  let r400 := n0 mod 146097 in
  let n100 := r400 / 36524 in
  let r100 := r400 mod 36524 in
  let n4 := r100 / 1461 in
  let r4 := r100 mod 1461 in
  let n1 := r4 / 365 in
  let r1 := r4 mod 365 in
  let y := n400 * 400 + 1 + n100 * 100 + n4 * 4 + n1 in
  if (n1 =? 4) || (n100 =? 4) then Date (y - 1) 12 31
  else
    let '(m, k) := month_of_go y 11 1 r1 in
    Date y m (k + 1).

(** The constructor's validation. *)
Definition valid_date (y m d : Z) : bool :=
  (1 <=? y) && (y <=? 9999) && (1 <=? m) && (m <=? 12) &&
  (1 <=? d) && (d <=? days_in_month y m).

(** The three slash-separated fields of a text. *)
Fixpoint fields_go (cur : str) (x : str) : list str :=
  match x with
  | [] => [rev cur]
  | c :: x' =>
      if Py.eqb_char c "/"%char then rev cur :: fields_go [] x'
      else fields_go (c :: cur) x'
  end.

Definition all_digits (x : str) : bool := forallb Py.is_digit x.

(** [datetime.strptime(x, "%d/%m/%Y").date()]: [%d] is one or two digits
    and a day 1..31, [%m] one or two digits and a month 1..12, [%Y] exactly
    four digits; a text of another shape, or a day that the month does not
    have, or the year 0, is a [ValueError]. *)
Definition strptime_dmy (x : str) : result date :=
  match fields_go [] x with
  | [d; m; y] =>
      let len_ok (w : str) := (1 <=? length w)%nat && (length w <=? 2)%nat in
      if all_digits d && all_digits m && all_digits y &&
         len_ok d && len_ok m && (length y =? 4)%nat &&
         valid_date (Py.int y) (Py.int m) (Py.int d)
      then Ok (Date (Py.int y) (Py.int m) (Py.int d))
      else Raise ValueError
  | _ => Raise ValueError
  end.

(** [d + timedelta(days=n)]: the constructor of [timedelta] refuses more
    than 999999999 days, the sum a date outside the years 1..9999. *)
Definition add_days (d : date) (n : Z) : result date :=
  if 999999999 <? Z.abs n then Raise OverflowError
  else
    let o := toordinal d + n in
    if (1 <=? o) && (o <=? max_ordinal) then Ok (fromordinal o)
    else Raise OverflowError.

(** [d.strftime("%d/%m/%Y")].  The year is written by the C library: glibc,
    which is followed here, does not pad it (the year 999 is [999]); a
    library that pads writes [0999]. *)
Definition strftime_dmy (d : date) : str :=
  Py.zero_pad 2 (day d) ++ s "/" ++ Py.zero_pad 2 (month d) ++ s "/" ++
  Py.str_of_int (year d).

End Dates.

(* ===================================================================== *)
(** ** The parser *)
(* ===================================================================== *)

Import Re.

(** [AGE_PAT = re.compile(r"^(\d{1,2})$")] *)
Definition AGE_PAT : regex := cat [Bol; Grp 1 (upto CDigit 1 2); Eol].

(** [MAX_HEATS_PER_EVENT: Optional[int] = None] *)
Definition MAX_HEATS_PER_EVENT : option nat := None.

Record Heat : Type := mkHeat {
  raw_label : str;
  label : str;
  lanes : gmap Z str
}.

Record Event : Type := mkEvent {
  number : Z;
  gender : str;
  event_code : str;
  age_group : str;
  heats : list Heat
}.

Record AlternateEntry : Type := mkAlternateEntry {
  event_no : Z;
  alt_gender : str;
  alt_event_code : str;
  alt_age_group : str;
  heat_label : str;
  alt_group : str;
  rank : Z;
  name : str;
  team : str;
  prelim : str
}.

(** [\s+] *)
Definition re_ws : regex := plus CSpace.

(** [re.sub(r"\s+", " ", x)] *)
Definition squeeze (x : str) : str := sub false re_ws [RLit (s " ")] x.

(** [\(\s*V\s*\)] *)
Definition re_visitor : regex :=
  cat [chr "("; star CSpace; chr "V"; star CSpace; chr ")"].

(** [S[A-Z]{0,2}\d{1,2}] *)
Definition re_mc_code : regex :=
  cat [chr "S"; upto (CRange "A" "Z") 0 2; upto CDigit 1 2].

(** [\s+S[A-Z]{0,2}\d{1,2}\s*$] *)
Definition re_mc_tail : regex := cat [plus CSpace; re_mc_code; star CSpace; Eol].

(** [,\s+] *)
Definition re_comma_ws : regex := cat [chr ","; plus CSpace].

Definition normalise_name (name : str) : str :=
  let name := Py.strip name in
  let name := sub true re_visitor [] name in
  let name := sub true re_mc_tail [] name in
  let name := Py.replace (s ",") (s ", ") (Py.replace (s " ,") (s ",") name) in
  let name := sub false re_comma_ws [RLit (s ", ")] name in
  let name := sub false re_ws [RLit (s " ")] name in
  Py.upper (Py.strip name).

Definition stroke_to_code (stroke : str) : str :=
  let s0 := Py.lower (Py.strip stroke) in
  if Py.contains (s "free") s0 then s "FS"
  else if Py.contains (s "back") s0 then s "BK"
  else if Py.contains (s "breast") s0 then s "BR"
  else if Py.contains (s "butter") s0 || Py.contains (s "fly") s0 then s "FLY"
  else if Py.contains (s "medley") s0 || Py.eqb_str (s "im") s0 then s "IM"
  else Py.upper (sub false re_ws [] stroke).

(** [^Event\s+(\d+)\s+(Girls|Women|Boys|Men|Mixed)\s+(.+)$] *)
Definition re_event : regex :=
  cat [Bol; lit "Event"; plus CSpace; Grp 1 (plus CDigit); plus CSpace;
       Grp 2 (alts [lit "Girls"; lit "Women"; lit "Boys"; lit "Men";
                    lit "Mixed"]);
       plus CSpace; Grp 3 (plus CDot); Eol].

(** [(\d+)\s+LC\s+Meter\s+(.+)$] *)
Definition re_dist_lc : regex :=
  cat [Grp 1 (plus CDigit); plus CSpace; lit "LC"; plus CSpace; lit "Meter";
       plus CSpace; Grp 2 (plus CDot); Eol].

(** [(\d+)\s+Meter\s+(.+)$] *)
Definition re_dist : regex :=
  cat [Grp 1 (plus CDigit); plus CSpace; lit "Meter"; plus CSpace;
       Grp 2 (plus CDot); Eol].

(** [\bmulti\s*-?\s*class\b] *)
Definition re_multiclass : regex :=
  cat [Wordb; lit "multi"; star CSpace; Opt (chr "-"); star CSpace;
       lit "class"; Wordb].

(** [{"girls":"W","women":"W","boys":"M","men":"M","mixed":"X"}.get(w, "")] *)
Definition gender_of (w : str) : str :=
  if Py.eqb_str w (s "girls") then s "W"
  else if Py.eqb_str w (s "women") then s "W"
  else if Py.eqb_str w (s "boys") then s "M"
  else if Py.eqb_str w (s "men") then s "M"
  else if Py.eqb_str w (s "mixed") then s "X"
  else [].

Definition parse_event_header (line : str) : option (Z * str * str * str) :=
  let line := squeeze (Py.strip line) in
  match match_ true re_event line with
  | None => None
  | Some m =>
      let number := Py.int (group m 1) in
      let gender_word := Py.lower (group m 2) in
      let gender := gender_of gender_word in
      let rest := Py.strip (group m 3) in
      let m2 :=
        match search true re_dist_lc rest with
        | Some m2 => Some m2
        | None => search true re_dist rest
        end in
      match m2 with
      | None => Some (number, gender, Py.upper rest, [])
      | Some m2 =>
          let dist := group m2 1 in
          let stroke_raw := squeeze (Py.strip (group m2 2)) in
          let is_multiclass :=
            match search true re_multiclass stroke_raw with
            | Some _ => true
            | None => false
            end in
          let stroke := Py.strip (sub true re_multiclass [] stroke_raw) in
          let stroke := squeeze stroke in
          let age_group := Py.strip (m_before m2) in
          let event_code :=
            dist ++ stroke_to_code stroke ++
            (if is_multiclass then s " MC" else []) in
          Some (number, gender, event_code, age_group)
      end
  end.

(** The en dash and the em dash, in UTF-8. *)
Definition en_dash : str := map ascii_of_nat [226; 128; 147].
Definition em_dash : str := map ascii_of_nat [226; 128; 148].

(** [Years?] *)
Definition re_years : regex := cat [lit "Year"; Opt (chr "s")].
(** [Olds?] *)
Definition re_olds : regex := cat [lit "Old"; Opt (chr "s")].
(** [(?:&|and)] *)
Definition re_and : regex := Alt (chr "&") (lit "and").
(** [(?:Over|Under)] *)
Definition re_over_under : regex := Alt (lit "Over") (lit "Under").
(** [\b\d{1,2}\s*-\s*\d{1,2}\s*] *)
Definition re_range : regex :=
  cat [Wordb; upto CDigit 1 2; star CSpace; chr "-"; star CSpace;
       upto CDigit 1 2; star CSpace].

(** The age phrases of [clean_heat_label], in the order of the source. *)
Definition patterns : list regex :=
  [ (* \b\d{1,2}\s*-\s*\d{1,2}\s*Years?\s*(?:&|and)?\s*Olds?\b *)
    cat [re_range; re_years; star CSpace; Opt re_and; star CSpace; re_olds;
         Wordb];
    (* \b\d{1,2}\s*-\s*\d{1,2}\s*Years?\b *)
    cat [re_range; re_years; Wordb];
    (* \b\d{1,2}\s*Years?\s*(?:&|and)\s*(?:Over|Under)\b *)
    cat [Wordb; upto CDigit 1 2; star CSpace; re_years; star CSpace; re_and;
         star CSpace; re_over_under; Wordb];
    (* \b\d{1,2}\s*(?:&|and)\s*(?:Over|Under)\b *)
    cat [Wordb; upto CDigit 1 2; star CSpace; re_and; star CSpace;
         re_over_under; Wordb];
    (* \b\d{1,2}\s*Years?\s*Olds?\b *)
    cat [Wordb; upto CDigit 1 2; star CSpace; re_years; star CSpace; re_olds;
         Wordb];
    (* \bYears?\s*(?:&|and)\s*(?:Over|Under)\b *)
    cat [Wordb; re_years; star CSpace; re_and; star CSpace; re_over_under;
         Wordb] ].

(** [^(\S+)\s+\d{1,2}$] *)
Definition re_bare_age : regex :=
  cat [Bol; Grp 1 (plus CNotSpace); plus CSpace; upto CDigit 1 2; Eol].

Definition clean_heat_label (label : str) : str :=
  let s0 := squeeze (Py.strip label) in
  let s0 := Py.replace em_dash (s "-") (Py.replace en_dash (s "-") s0) in
  let s0 := fold_left (fun acc pat => sub true pat [] acc) patterns s0 in
  let s0 := Py.strip (squeeze s0) in
  let s0 := Py.strip (Py.rstrip_chars (s "- ") s0) in
  let s0 := sub false re_bare_age [RRef 1] s0 in
  Py.strip s0.

(** [^(Final|Heat)\s+(.+)$] *)
Definition re_heat : regex :=
  cat [Bol; Grp 1 (Alt (lit "Final") (lit "Heat")); plus CSpace;
       Grp 2 (plus CDot); Eol].

Definition parse_heat_label (line : str) : option str :=
  let line := squeeze (Py.strip line) in
  match match_ true re_heat line with
  | None => None
  | Some m => Some (clean_heat_label (Py.strip (group m 2)))
  end.

(** [^([0-9])\s+( .* )$] *)
Definition re_lane : regex :=
  cat [Bol; Grp 1 (Chr (CRange "0" "9")); plus CSpace; Grp 2 (star CDot); Eol].

(** [mc_pat = re.compile(r"^S[A-Z]{0,2}\d{1,2}$", re.IGNORECASE)] *)
Definition mc_pat : regex := cat [Bol; re_mc_code; Eol].

(** [sex_age_pat = re.compile(r"^[MWX]\d{1,2}$", re.IGNORECASE)] *)
Definition sex_age_pat : regex :=
  cat [Bol; Chr (COneOf (s "MWX")); upto CDigit 1 2; Eol].

(** [\d{1,2}:\d{2}\.\d{2}] *)
Definition re_mm_ss_cc : regex :=
  cat [upto CDigit 1 2; chr ":"; upto CDigit 2 2; chr "."; upto CDigit 2 2].

(** [^(NT|\d{1,2}:\d{2}\.\d{2})$] *)
Definition re_nt_or_time : regex :=
  cat [Bol; Grp 1 (Alt (lit "NT") re_mm_ss_cc); Eol].

Definition matches (ic : bool) (r : regex) (x : str) : bool :=
  match match_ ic r x with Some _ => true | None => false end.

(** The tests that end the name run of a row: a bare age, a sex+age token,
    a multi-class code. *)
Definition age_like (tok : str) : bool :=
  matches false AGE_PAT tok || matches true sex_age_pat tok ||
  matches true mc_pat tok.

(** The [break] tests of the loop of [parse_lane_line]. *)
Definition lane_stop (tok : str) : bool :=
  age_like tok || matches true re_nt_or_time tok.

(** [for tok in tokens: if stop(tok): break; name_tokens.append(tok)] *)
Fixpoint name_run (stop : str -> bool) (tokens : list str) : list str :=
  match tokens with
  | [] => []
  | tok :: rest => if stop tok then [] else tok :: name_run stop rest
  end.

Definition parse_lane_line (line : str) : option (Z * str) :=
  let line := Py.strip line in
  match match_ false re_lane line with
  | None => None
  | Some m =>
      let lane := Py.int (group m 1) in
      let rest := Py.strip (group m 2) in
      let tokens := Py.split rest in
      let name_tokens := name_run lane_stop tokens in
      match name_tokens with
      | [] => None
      | _ =>
          let name := Py.strip (Py.join (s " ") name_tokens) in
          match name with
          | [] => None
          | _ => Some (lane, normalise_name name)
          end
      end
  end.

(** [^(\d+)\s+( .* )$] *)
Definition re_alt : regex :=
  cat [Bol; Grp 1 (plus CDigit); plus CSpace; Grp 2 (star CDot); Eol].

(** [^\d{1,2}:\d{2}\.\d{2}$|^\d{1,2}\.\d{2}$|^NT$] *)
Definition re_prelim : regex :=
  alts [cat [Bol; re_mm_ss_cc; Eol];
        cat [Bol; upto CDigit 1 2; chr "."; upto CDigit 2 2; Eol];
        cat [Bol; lit "NT"; Eol]].

(** The index of the first token that ends the name run ([idx_age]). *)
Fixpoint find_stop (stop : str -> bool) (i : nat) (tokens : list str)
    : option nat :=
  match tokens with
  | [] => None
  | tok :: rest => if stop tok then Some i else find_stop stop (S i) rest
  end.

(** The loop over [rem]: the first time-like token is the prelim, the
    tokens before it are the team.  [seen] is [rem[:j]], reversed. *)
Fixpoint find_prelim (seen : list str) (rem : list str) : option (str * str) :=
  match rem with
  | [] => None
  | tok :: rest =>
      if matches true re_prelim tok
      then Some (Py.strip (Py.join (s " ") (rev seen)), tok)
      else find_prelim (tok :: seen) rest
  end.

Definition parse_alternate_line (line : str) : option (Z * str * str * str) :=
  let line := squeeze (Py.strip line) in
  match match_ false re_alt line with
  | None => None
  | Some m =>
      let rank := Py.int (group m 1) in
      let rest := Py.strip (group m 2) in
      let tokens := Py.split rest in
      let name_tokens := name_run age_like tokens in
      let idx_age := find_stop age_like 0 tokens in
      match name_tokens with
      | [] => None
      | _ =>
          let name := normalise_name (Py.join (s " ") name_tokens) in
          let '(team, prelim) :=
            match idx_age with
            | None => ([], [])
            | Some i =>
                let rem := drop (S i) tokens in
                match find_prelim [] rem with
                | Some (team, prelim) =>
                    (* a matched token is never empty, so the fallback
                       below is skipped *)
                    (team, prelim)
                | None =>
                    match rem with
                    | [] => ([], [])
                    | _ =>
                        (Py.strip (Py.join (s " ") (List.removelast rem)),
                         List.last rem [])
                    end
                end
            end in
          Some (rank, name, Py.upper team, prelim)
      end
  end.

(** *** The calls of [int] that can raise *)

Import Dates.

Module Raising.

(** [int(x)] for a text of decimal digits, which is what every call of the
    source passes: more than [MAX_STR_DIGITS] digits are a [ValueError]. *)
Definition int (x : str) : result Z :=
  if (Py.MAX_STR_DIGITS <? Z.of_nat (length x))%Z then Raise ValueError
  else Ok (Py.int x).

(** [parse_event_header], with the exception of [int(m.group(1))]. *)
Definition parse_event_header (line : str)
    : result (option (Z * str * str * str)) :=
  let line := squeeze (Py.strip line) in
  match match_ true re_event line with
  | None => Ok None
  | Some m =>
      bind (int (group m 1)) (fun number =>
      let gender_word := Py.lower (group m 2) in
      let gender := gender_of gender_word in
      let rest := Py.strip (group m 3) in
      let m2 :=
        match search true re_dist_lc rest with
        | Some m2 => Some m2
        | None => search true re_dist rest
        end in
      match m2 with
      | None => Ok (Some (number, gender, Py.upper rest, []))
      | Some m2 =>
          let dist := group m2 1 in
          let stroke_raw := squeeze (Py.strip (group m2 2)) in
          let is_multiclass :=
            match search true re_multiclass stroke_raw with
            | Some _ => true
            | None => false
            end in
          let stroke := Py.strip (sub true re_multiclass [] stroke_raw) in
          let stroke := squeeze stroke in
          let age_group := Py.strip (m_before m2) in
          let event_code :=
            dist ++ stroke_to_code stroke ++
            (if is_multiclass then s " MC" else []) in
          Ok (Some (number, gender, event_code, age_group))
      end)
  end.

(** [parse_alternate_line], with the exception of [int(m.group(1))]. *)
Definition parse_alternate_line (line : str)
    : result (option (Z * str * str * str)) :=
  let line := squeeze (Py.strip line) in
  match match_ false re_alt line with
  | None => Ok None
  | Some m =>
      bind (int (group m 1)) (fun rank =>
      let rest := Py.strip (group m 2) in
      let tokens := Py.split rest in
      let name_tokens := name_run age_like tokens in
      let idx_age := find_stop age_like 0 tokens in
      match name_tokens with
      | [] => Ok None
      | _ =>
          let name := normalise_name (Py.join (s " ") name_tokens) in
          let '(team, prelim) :=
            match idx_age with
            | None => ([], [])
            | Some i =>
                let rem := drop (S i) tokens in
                match find_prelim [] rem with
                | Some (team, prelim) => (team, prelim)
                | None =>
                    match rem with
                    | [] => ([], [])
                    | _ =>
                        (Py.strip (Py.join (s " ") (List.removelast rem)),
                         List.last rem [])
                    end
                end
            end in
          Ok (Some (rank, name, Py.upper team, prelim))
      end)
  end.

End Raising.

(** *** Title inference *)

(** [\d{1,2}/\d{1,2}/\d{4}] *)
Definition re_dmy : regex :=
  cat [upto CDigit 1 2; chr "/"; upto CDigit 1 2; chr "/"; upto CDigit 4 4].

(** [-\s*(\d{1,2}/\d{1,2}/\d{4})\s+to\s+(\d{1,2}/\d{1,2}/\d{4})] *)
Definition re_date_range : regex :=
  cat [chr "-"; star CSpace; Grp 1 re_dmy; plus CSpace; lit "to"; plus CSpace;
       Grp 2 re_dmy].

(** [Night\s+(One|Two|Three|Four|Five|Six|Seven|Eight|Nine|Ten|\d+)] *)
Definition re_night : regex :=
  cat [lit "Night"; plus CSpace;
       Grp 1 (alts [lit "One"; lit "Two"; lit "Three"; lit "Four"; lit "Five";
                    lit "Six"; lit "Seven"; lit "Eight"; lit "Nine"; lit "Ten";
                    plus CDigit])].

(** [words = {"one":1, ..., "ten":10}], as [words.get(token)]. *)
Definition words : list (str * Z) :=
  [(s "one", 1); (s "two", 2); (s "three", 3); (s "four", 4); (s "five", 5);
   (s "six", 6); (s "seven", 7); (s "eight", 8); (s "nine", 9);
   (s "ten", 10)]%Z.

Fixpoint words_get (l : list (str * Z)) (token : str) : option Z :=
  match l with
  | [] => None
  | (w, n) :: l' => if Py.eqb_str w token then Some n else words_get l' token
  end.

(** The night number read from the program line.  The default of
    [words.get(token, int(token) if token.isdigit() else 1)] is computed
    before the lookup, and [int] may raise. *)
Definition night_of (program_line : str) : result Z :=
  match search true re_night program_line with
  | None => Ok 1%Z
  | Some m2 =>
      let token := Py.lower (group m2 1) in
      bind (if Py.isdigit token then Raising.int token else Ok 1%Z)
           (fun dflt =>
      Ok (match words_get words token with
          | Some n => n
          | None => dflt
          end))
  end.

(** The start date read from the meet line; [strptime] may raise. *)
Definition start_date_of (meet_line : str) : result (option date) :=
  match search false re_date_range meet_line with
  | None => Ok None
  | Some m => bind (strptime_dmy (group m 1)) (fun d => Ok (Some d))
  end.

Definition infer_day_title (first_page_lines : list str) : result str :=
  let meet_line := nth 0 first_page_lines [] in
  let program_line := nth 1 first_page_lines [] in
  bind (start_date_of meet_line) (fun start_date =>
  bind (night_of program_line) (fun night_no =>
  bind (match start_date with
        | Some d => bind (add_days d (night_no - 1)) (fun d' => Ok (Some d'))
        | None => Ok None
        end) (fun date =>
  let date_str :=
    match date with Some d => strftime_dmy d | None => [] end in
  Ok (s "Day " ++ Py.str_of_int night_no ++ s " Heats - " ++ date_str)))).

(** *** The state machine of [parse_pdf] *)

(** The variables of the loop.  [current_heat] is a reference to a heat of
    [current_event]: it is kept as the index of that heat in
    [heats current_event], and a write through it changes the event. *)
Record pstate : Type := mkState {
  events : list Event;
  alternates : list AlternateEntry;
  current_event : option Event;
  current_heat : option nat;
  in_alternates : bool;
  current_alt_group : str
}.

Definition init_state : pstate := mkState [] [] None None false [].

(** [^\d{4}-\d{2}\b] *)
Definition re_code_line : regex :=
  cat [Bol; upto CDigit 4 4; chr "-"; upto CDigit 2 2; Wordb].

Definition is_boilerplate (line : str) : bool :=
  let low := Py.lower line in
  Py.startswith (s "lane ") low || Py.startswith (s "name ") low ||
  Py.startswith (s "age ") low || Py.startswith (s "team ") low ||
  Py.startswith (s "finals program") low ||
  matches false re_code_line line.

(** [current_heat.lanes[lane] = name] *)
Definition set_lane (lane : Z) (nm : str) (h : Heat) : Heat :=
  mkHeat (raw_label h) (label h) (<[lane := nm]> (lanes h)).

Definition with_heats (ev : Event) (hs : list Heat) : Event :=
  mkEvent (number ev) (gender ev) (event_code ev) (age_group ev) hs.

(** The owner of an alternate row: the current event and its last heat. *)
Definition make_alternate (ev : Event) (h : Heat) (grp : str)
    (row : Z * str * str * str) : AlternateEntry :=
  let '(rk, nm, tm, pr) := row in
  mkAlternateEntry (number ev) (gender ev) (event_code ev) (age_group ev)
                   (label h) grp rk nm tm pr.

(** One turn of the loop body, for the raw line [raw]; [cap] is the heat
    cap. *)
Definition step (cap : option nat) (st : pstate) (raw : str) : pstate :=
  let line := Py.strip raw in
  match line with
  | [] => st
  | _ =>
  match parse_event_header line with
  | Some (number, gender, event_code, age_group) =>
      mkState
        (match current_event st with
         | Some ev => events st ++ [ev]
         | None => events st
         end)
        (alternates st)
        (Some (mkEvent number gender event_code age_group []))
        None false []
  | None =>
  match current_event st with
  | None => st
  | Some ev =>
  if is_boilerplate line then st
  else if Py.startswith (s "alternates") (Py.lower line) then
    mkState (events st) (alternates st) (current_event st) (current_heat st)
            true (squeeze (Py.strip line))
  else
  match parse_heat_label line with
  | Some heat_label =>
      let capped :=
        match cap with
        | Some n => (n <=? length (heats ev))%nat
        | None => false
        end in
      if capped then
        mkState (events st) (alternates st) (current_event st) None false []
      else
        mkState (events st) (alternates st)
                (Some (with_heats ev (heats ev ++ [mkHeat line heat_label ∅])))
                (Some (length (heats ev))) false []
  | None =>
  if in_alternates st then
    match parse_alternate_line line, last (heats ev) with
    | Some row, Some h =>
        mkState (events st)
                (alternates st ++ [make_alternate ev h (current_alt_group st) row])
                (current_event st) (current_heat st)
                (in_alternates st) (current_alt_group st)
    | _, _ => st
    end
  else
    match parse_lane_line line, current_heat st with
    | Some (lane, nm), Some i =>
        mkState (events st) (alternates st)
                (Some (with_heats ev (alter (set_lane lane nm) i (heats ev))))
                (current_heat st) (in_alternates st) (current_alt_group st)
    | _, _ => st
    end
  end
  end
  end
  end.

(** The loop over all lines, then the last event is closed. *)
Definition parse_lines (cap : option nat) (lines : list str)
    : list Event * list AlternateEntry :=
  let st := fold_left (step cap) lines init_state in
  (match current_event st with
   | Some ev => events st ++ [ev]
   | None => events st
   end,
   alternates st).

(** [parse_pdf], from the text of the pages on.  No page at all makes
    [pages[0]] raise, and so does a title that cannot be computed; the
    events and alternates are those of the loop when no line of the
    document makes [int] raise. *)
Definition parse_pdf (pages : list str)
    : result (str * list Event * list AlternateEntry) :=
  match pages with
  | [] => Raise IndexError
  | first :: _ =>
      bind (infer_day_title (Py.splitlines first)) (fun title =>
      let '(evs, alts) :=
        parse_lines MAX_HEATS_PER_EVENT (flat_map Py.splitlines pages) in
      Ok (title, evs, alts))
  end.

(* ===================================================================== *)
(** ** Choosing a PDF, and the rows of the tables of [app.py] *)
(* ===================================================================== *)

(** [_prompt_user_to_select_pdf]: [name] is [p.name], [typed] is what
    [input] returns.  The result is paired with the lines written to the
    terminal, the prompt of [input] last. *)
Definition _prompt_user_to_select_pdf {Path : Type} (name : Path -> str)
    (pdfs : list Path) (typed : str) : list str * result Path :=
  match pdfs with
  | [] => ([], Raise ValueError)
  | [p] => ([], Ok p)
  | _ =>
      let printed :=
        s "Found PDFs:" ::
        imap (fun i p =>
                s "  " ++ Py.str_of_int (Z.of_nat i + 1) ++ s ") " ++ name p)
             pdfs ++
        [s "Select PDF [1-" ++ Py.str_of_int (Z.of_nat (length pdfs)) ++ s "]: "] in
      let choice := Py.strip typed in
      if negb (Py.isdigit choice) then (printed, Raise ValueError)
      else
        let idx := Py.int choice in
        if (idx <? 1)%Z || (Z.of_nat (length pdfs) <? idx)%Z
        then (printed, Raise ValueError)
        else (printed,
              match pdfs !! Z.to_nat (idx - 1) with
              | Some p => Ok p
              | None => Raise IndexError
              end)
  end.

(** [[f"Lane {i}" for i in range(10)]] and the like. *)
Definition numbered (word : string) (from count : nat) : list str :=
  map (fun i => s word ++ Py.str_of_int (Z.of_nat i)) (seq from count).

Definition HEATS_HEADERS : list str :=
  [s "#"; s "Gender"; s "Event"; s "Age Group"; s "Heat"; s "Cal"] ++
  numbered "Lane " 0 10 ++ numbered "Analyst " 1 4.

Definition ALT_HEADERS : list str :=
  [s "#"; s "Gender"; s "Event"; s "Age Group"; s "Heat"; s "Alt Group";
   s "Alt Rank"; s "Name"; s "Team"; s "Prelims"].

(** The row of one heat: the event columns, the label, an empty Cal
    column, [heat.lanes.get(lane, "")] for the lanes 0..9, four empty
    analyst columns. *)
Definition heat_row (ev : Event) (heat : Heat) : list str :=
  [Py.str_of_int (number ev); gender ev; event_code ev; age_group ev;
   label heat; []] ++
  map (fun lane => default [] (lanes heat !! Z.of_nat lane)) (seq 0 10) ++
  repeat [] 4.

Definition events_to_rows (events : list Event) : list (list str) :=
  flat_map (fun ev => map (heat_row ev) (heats ev)) events.

Definition alternate_row (a : AlternateEntry) : list str :=
  [Py.str_of_int (event_no a); alt_gender a; alt_event_code a; alt_age_group a;
   heat_label a; alt_group a; Py.str_of_int (rank a); name a; team a; prelim a].

Definition alternates_to_rows (alternates : list AlternateEntry)
    : list (list str) :=
  map alternate_row alternates.

(** [fixed_rows] of [dataframe_from_rows]: every row is padded with empty
    cells up to the width of the header; a longer row is left as it is. *)
Definition fixed_rows (headers : list str) (rows : list (list str))
    : list (list str) :=
  map (fun r => r ++ repeat [] (length headers - length r)) rows.

(* ===================================================================== *)
(** ** Vocabulary of the properties *)
(* ===================================================================== *)

(** Text without whitespace, and text of whitespace only. *)
Definition nosp (t : str) : bool := forallb (fun c => negb (Py.is_space c)) t.
Definition allsp (w : str) : bool := forallb Py.is_space w.

(** The text starts with a character of the set [f]. *)
Definition headp (f : ascii -> bool) (x : str) : bool :=
  match x with c :: _ => f c | [] => false end.

(** A token: a non-empty text without whitespace. *)
Definition token (t : str) : Prop := t <> [] /\ nosp t = true.

(** Whitespace inside the text is single spaces only. *)
Fixpoint tidy (x : str) : bool :=
  match x with
  | [] => true
  | c :: x' =>
      (if Py.is_space c
       then Py.eqb_char c " " && negb (headp Py.is_space x')
       else true) && tidy x'
  end.

(** Every key of the lane mapping is one of 0..9. *)
Definition heat_ok (h : Heat) : Prop :=
  map_Forall (fun (k : Z) (_ : str) => (0 <= k <= 9)%Z) (lanes h).

Definition event_ok (ev : Event) : Prop := Forall heat_ok (heats ev).

Definition state_ok (st : pstate) : Prop :=
  Forall event_ok (events st) /\
  match current_event st with Some ev => event_ok ev | None => True end.

(** The gender words of the event-header pattern. *)
Definition gender_words : list str :=
  [s "girls"; s "women"; s "boys"; s "men"; s "mixed"].

(** The title for a night number and a date text. *)
Definition title_of (night_no : Z) (date_str : str) : str :=
  s "Day " ++ Py.str_of_int night_no ++ s " Heats - " ++ date_str.

(** An event with one heat, in alternates mode. *)
Definition demo_state : pstate :=
  fold_left (step None)
    [s "Event 1 Girls 15 & Over 50 LC Meter Freestyle";
     s "Final 1a Super Final"; s "Alternates 15 & Over"] init_state.

Definition demo_event : Event :=
  mkEvent 1 (s "W") (s "50FS") (s "15 & Over")
          [mkHeat (s "Final 1a Super Final") (s "1a Super Final") ∅].

(** A line that is not blank. *)
Definition nonblank (line : str) : bool :=
  match Py.strip line with [] => false | _ => true end.

(** The events of a state: the closed ones, then the open one. *)
Definition all_events (st : pstate) : list Event :=
  events st ++ option_list (current_event st).

(** What an event header determines of an event. *)
Definition event_key (ev : Event) : Z * str * str * str :=
  (number ev, gender ev, event_code ev, age_group ev).

(** The alternate [a] belongs to the event [ev]: it carries the event's
    fields and the label of one of its heats. *)
Definition alternate_of (a : AlternateEntry) (ev : Event) : Prop :=
  event_no a = number ev /\ alt_gender a = gender ev /\
  alt_event_code a = event_code ev /\ alt_age_group a = age_group ev /\
  In (heat_label a) (map label (heats ev)).

(** A heat whose label is the cleaned form of its header line. *)
Definition heat_label_ok (h : Heat) : Prop :=
  Py.strip (raw_label h) = raw_label h /\
  parse_heat_label (raw_label h) = Some (label h) /\
  label h = Py.join (s " ") (Py.split (label h)) /\
  search false re_bare_age (label h) = None.

(** A normalised name: its tokens joined by single spaces, and no lower
    case letter. *)
Definition name_ok (nm : str) : Prop :=
  nm = Py.join (s " ") (Py.split nm) /\
  forallb (fun c => negb (Py.is_lower c)) nm = true.

(** Case analysis on all characters. *)
Ltac by_char a :=
  destruct a as [[] [] [] [] [] [] [] []]; vm_compute; try reflexivity;
  try discriminate; auto.

(* ===================================================================== *)
(** ** Facts about the matcher *)
(* ===================================================================== *)

Section ReFacts.

Lemma orelse_Some {A} (x y : option A) (a : A) :
  orelse x y = Some a -> x = Some a \/ (x = None /\ y = Some a).
Proof. destruct x; simpl; intros H; [left | right]; auto. Qed.

Lemma rep_sound {A} (f : ascii -> bool) (q : str) :
  forall lo hi p (k : str -> str -> option A) res,
    rep f lo hi p q k = Some res ->
    exists w q', q = w ++ q' /\ forallb f w = true /\ (lo <= length w)%nat /\
                 match hi with Some h => (length w <= h)%nat | None => True end /\
                 k (rev w ++ p) q' = Some res.
Proof.
  induction q as [|c q IH]; intros lo hi p k res H; simpl in H.
  - destruct lo; [|discriminate].
    exists [], []. repeat split; auto. destruct hi; simpl; auto with lia.
  - assert (Hstop : match lo with O => k p (c :: q) | S _ => None end = Some res ->
        exists w q', c :: q = w ++ q' /\ forallb f w = true /\
          (lo <= length w)%nat /\
          match hi with Some h => (length w <= h)%nat | None => True end /\
          k (rev w ++ p) q' = Some res).
    { intros Hs. destruct lo; [|discriminate].
      exists [], (c :: q). repeat split; auto. destruct hi; simpl; auto with lia. }
    destruct (f c && negb match hi with Some 0%nat => true | _ => false end) eqn:E;
      [|auto].
    apply orelse_Some in H as [H | [_ H]]; [|auto].
    apply andb_true_iff in E as [Ec Eh].
    apply IH in H as (w & q' & -> & Hw & Hlo & Hhi & Hk).
    exists (c :: w), q'. simpl. rewrite Ec, Hw. repeat split; auto.
    + lia.
    + destruct hi as [[|h]|]; simpl in *; try discriminate; auto with lia.
    + rewrite <- app_assoc. exact Hk.
Qed.

(** Every result of the matcher comes from a match of the pattern followed
    by a success of the continuation. *)
Lemma exec_sound (ic : bool) (r : regex) :
  forall st k res,
    exec ic r st k = Some res ->
    exists st', den ic r st st' /\ k st' = Some res.
Proof.
  induction r as [|c|r1 IH1 r2 IH2|r1 IH1 r2 IH2|r1 IH1|c lo hi|n r1 IH1| | |];
    intros st k res H; simpl in H |- *.
  - eauto.
  - destruct (suf st) as [|a q'] eqn:Es; [discriminate|].
    destruct (cs_match ic c a) eqn:Ec; [|discriminate].
    eexists. split; [|exact H]. exists a. simpl. auto.
  - apply IH1 in H as (st1 & H1 & H). apply IH2 in H as (st2 & H2 & H). eauto.
  - apply orelse_Some in H as [H | [_ H]].
    + apply IH1 in H as (st1 & H1 & H). eauto.
    + apply IH2 in H as (st1 & H1 & H). eauto.
  - apply orelse_Some in H as [H | [_ H]].
    + apply IH1 in H as (st1 & H1 & H). eauto.
    + eauto.
  - apply rep_sound in H as (w & q' & Hq & Hw & Hlo & Hhi & Hk).
    eexists. split; [|exact Hk]. exists w. simpl. auto 10.
  - apply IH1 in H as (st1 & H1 & H). eauto.
  - destruct (pre st) eqn:E; [eauto | discriminate].
  - destruct (at_eol (suf st)) eqn:E; [eauto | discriminate].
  - destruct (at_word_boundary (pre st) (suf st)) eqn:E; [eauto | discriminate].
Qed.

(** A match consumes a piece [w] of the subject. *)
Lemma den_span (ic : bool) (r : regex) :
  forall st st', den ic r st st' ->
    exists w, suf st = w ++ suf st' /\ pre st' = rev w ++ pre st.
Proof.
  induction r as [|c|r1 IH1 r2 IH2|r1 IH1 r2 IH2|r1 IH1|c lo hi|n r1 IH1| | |];
    intros st st' H; simpl in H.
  - subst. exists []. auto.
  - destruct H as (a & Hs & _ & Hp & _). exists [a]. simpl. auto.
  - destruct H as (st1 & H1 & H2).
    apply IH1 in H1 as (w1 & Hs1 & Hp1). apply IH2 in H2 as (w2 & Hs2 & Hp2).
    exists (w1 ++ w2). rewrite Hs1, Hs2, Hp2, Hp1, rev_app_distr, !app_assoc. auto.
  - destruct H as [H | H]; eauto.
  - destruct H as [H | H]; [eauto|]. subst. exists []. auto.
  - destruct H as (w & Hs & Hp & _). eauto.
  - destruct H as (st1 & H1 & ->). simpl. eauto.
  - destruct H as [_ ->]. exists []. auto.
  - destruct H as [_ ->]. exists []. auto.
  - destruct H as [_ ->]. exists []. auto.
Qed.

Lemma consumed_app (w p : str) : consumed p (rev w ++ p) = w.
Proof.
  unfold consumed. rewrite length_app, length_rev.
  replace (length w + length p - length p)%nat with (length (rev w)) by
    (rewrite length_rev; lia).
  rewrite firstn_app, Nat.sub_diag, firstn_all. simpl.
  rewrite app_nil_r. apply rev_involutive.
Qed.

(** The shape of a match object. *)
Lemma match_at_sound ic r p q m :
  match_at ic r p q = Some m ->
  exists st' w, den ic r (MState p q []) st' /\
    q = w ++ suf st' /\ pre st' = rev w ++ p /\
    m = RMatch (rev p) w (suf st') (caps st').
Proof.
  unfold match_at. destruct (exec ic r (MState p q []) Some) as [st|] eqn:E;
    [|discriminate].
  intros [= <-]. apply exec_sound in E as (st' & Hd & [= ->]).
  destruct (den_span _ _ _ _ Hd) as (w & Hs & Hp). simpl in Hs, Hp.
  exists st, w. rewrite Hp, consumed_app. auto.
Qed.

End ReFacts.

(* ===================================================================== *)
(** ** Lane rows *)
(* ===================================================================== *)

Lemma in_range_bounds lo hi c :
  Py.in_range lo hi c = true -> (lo <= Py.code c <= hi)%N.
Proof. unfold Py.in_range. rewrite andb_true_iff, !N.leb_le. auto. Qed.

Lemma cs_match_false_base c a : cs_match false c a = cs_base c a.
Proof. unfold cs_match. simpl. apply orb_false_r. Qed.

(** What a match of the row pattern says about the line: it starts with
    one digit [a], whitespace follows, and group 1 is that digit. *)
Lemma re_lane_sound (x : str) (m : rmatch) :
  match_ false re_lane x = Some m ->
  exists a c rest,
    x = a :: c :: rest /\ Py.in_range 48 57 a = true /\ Py.is_space c = true /\
    group m 1 = [a].
Proof.
  intros H. apply match_at_sound in H as (st' & w & Hd & _ & _ & ->).
  cbn in Hd.
  destruct Hd as (st0 & [_ ->] & st1 & (st2 & Hchr & ->) & st3 & Hws & st4 &
                  (st5 & Hdot & ->) & _ & ->).
  destruct Hchr as (a & Hs & Ha & Hp & Hc).
  destruct Hws as (ws & Hs' & _ & Hc' & Hws & Hlen & _).
  cbn in *. rewrite cs_match_false_base in Ha. simpl in Ha.
  destruct ws as [|c ws]; [simpl in Hlen; lia|].
  simpl in Hws. apply andb_true_iff in Hws as [Hsp _].
  rewrite cs_match_false_base in Hsp. simpl in Hsp.
  exists a, c, (ws ++ suf st3). repeat split; auto.
  - rewrite Hs, Hs'. reflexivity.
  - destruct Hdot as (w2 & _ & _ & Hc2 & _).
    unfold group. simpl. rewrite Hc2, Hc'. simpl. rewrite Hp.
    apply (consumed_app [a]).
Qed.

Lemma int_single_digit a :
  Py.in_range 48 57 a = true -> (0 <= Py.int [a] <= 9)%Z.
Proof.
  intros H. apply in_range_bounds in H. unfold Py.int, Py.digit_val. simpl. lia.
Qed.

(** A line that [parse_lane_line] accepts starts, after stripping, with one
    digit 0..9 followed by whitespace, and the lane number is the value of
    that digit. *)
Lemma parse_lane_line_shape line lane nm :
  parse_lane_line line = Some (lane, nm) ->
  exists a c rest,
    Py.strip line = a :: c :: rest /\ Py.in_range 48 57 a = true /\
    Py.is_space c = true /\ lane = Py.digit_val a.
Proof.
  unfold parse_lane_line.
  destruct (match_ false re_lane (Py.strip line)) as [m|] eqn:E; [|discriminate].
  apply re_lane_sound in E as (a & c & rest & Hx & Ha & Hc & Hg).
  rewrite Hg. intros H. exists a, c, rest. repeat split; auto.
  assert (lane = Py.int [a]) as ->.
  { repeat case_match; simplify_eq; reflexivity. }
  unfold Py.int. simpl. lia.
Qed.

(** A lane number returned by [parse_lane_line] is between 0 and 9. *)
Lemma parse_lane_line_range line lane nm :
  parse_lane_line line = Some (lane, nm) -> (0 <= lane <= 9)%Z.
Proof.
  intros H. apply parse_lane_line_shape in H as (a & c & rest & _ & Ha & _ & ->).
  apply in_range_bounds in Ha. unfold Py.digit_val. lia.
Qed.

(* ===================================================================== *)
(** ** The lane numbers of a document *)
(* ===================================================================== *)

Lemma init_state_ok : state_ok init_state.
Proof. split; simpl; auto. Qed.

Lemma set_lane_ok lane nm h :
  (0 <= lane <= 9)%Z -> heat_ok h -> heat_ok (set_lane lane nm h).
Proof. intros Hl Hh. unfold heat_ok, set_lane. simpl. now apply map_Forall_insert_2. Qed.

Lemma step_ok cap st raw : state_ok st -> state_ok (step cap st raw).
Proof.
  intros [Hev Hcur]. unfold step.
  destruct (Py.strip raw) as [|c0 line0] eqn:El; [split; auto|].
  destruct (parse_event_header (c0 :: line0)) as [[[[n g] c] a]|].
  { split; simpl; [|constructor].
    destruct (current_event st); auto. apply Forall_app. auto. }
  destruct (current_event st) as [ev|] eqn:Ec; [|split; auto; now rewrite Ec].
  assert (Hst : state_ok st) by (split; auto; now rewrite Ec).
  repeat case_match; auto; split; simpl; auto; try (rewrite Ec; auto).
  - apply Forall_app. split; auto. apply Forall_singleton.
    apply map_Forall_empty.
  - apply Forall_app. split; auto. apply Forall_singleton.
    apply map_Forall_empty.
  - apply Forall_alter; auto. intros h _ Hh. apply set_lane_ok; auto.
    eapply parse_lane_line_range; eauto.
Qed.

Lemma fold_step_ok cap lines : forall st,
  state_ok st -> state_ok (fold_left (step cap) lines st).
Proof.
  induction lines as [|l lines IH]; intros st H; simpl; auto.
  apply IH, step_ok, H.
Qed.

(** C9.  In every document that the state machine builds, from any
    sequence of lines and under any heat cap, every key of every heat's
    lane mapping is an integer between 0 and 9, and the same holds of every
    result of [parse_pdf]: a lane row is only extracted from a line that
    starts with a single digit 0..9 followed by whitespace, and its lane
    number is that digit. *)
Theorem lane_numbers_within_0_9 :
  (forall cap lines, Forall event_ok (fst (parse_lines cap lines))) /\
  (forall pages,
     match parse_pdf pages with
     | Ok (_, evs, _) => Forall event_ok evs
     | Raise _ => True
     end) /\
  (forall line lane nm,
     parse_lane_line line = Some (lane, nm) ->
     (0 <= lane <= 9)%Z /\
     exists a c rest,
       Py.strip line = a :: c :: rest /\ Py.in_range 48 57 a = true /\
       Py.is_space c = true /\ lane = Py.digit_val a).
Proof.
  assert (H : forall cap lines, Forall event_ok (fst (parse_lines cap lines))).
  { intros cap lines. unfold parse_lines. simpl.
    destruct (fold_step_ok cap lines init_state init_state_ok) as [H1 H2].
    destruct (current_event _); auto. apply Forall_app. auto. }
  split; [exact H|]. split.
  - intros pages. unfold parse_pdf. destruct pages as [|first rest]; [exact I|].
    specialize (H MAX_HEATS_PER_EVENT (flat_map Py.splitlines (first :: rest))).
    destruct (infer_day_title _); unfold bind; [|exact I].
    destruct (parse_lines _ _) as [evs alts]. exact H.
  - intros line lane nm Hl. split.
    + eapply parse_lane_line_range, Hl.
    + eapply parse_lane_line_shape, Hl.
Qed.

Lemma lane_numbers_within_0_9_witness :
  parse_lane_line (s " 4 Doe (V), Ann W15 Club") = Some (4%Z, s "DOE, ANN") /\
  (0 <= 4 <= 9)%Z /\
  parse_lane_line (s "14 Doe, Ann 15 Club") = None.
Proof.
  assert (E : parse_lane_line (s " 4 Doe (V), Ann W15 Club")
              = Some (4%Z, s "DOE, ANN")) by (vm_compute; reflexivity).
  split; [exact E|]. split; [|vm_compute; reflexivity].
  apply (proj2 (proj2 lane_numbers_within_0_9)
           (s " 4 Doe (V), Ann W15 Club") 4%Z (s "DOE, ANN") E).
Defined.

(* ===================================================================== *)
(** ** The documented examples *)
(* ===================================================================== *)

(** C4.  The event header ["Event 1 Girls 15 & Over 50 LC Meter Freestyle"]
    gives event number 1, gender ["W"], event code ["50FS"] and age group
    ["15 & Over"]. *)
Theorem event_header_example :
  parse_event_header (s "Event 1 Girls 15 & Over 50 LC Meter Freestyle")
  = Some (1%Z, s "W", s "50FS", s "15 & Over").
Proof. vm_compute. reflexivity. Qed.

(** C5.  The alternate row ["2 Hamilton (V), Nafanua 15 Samoa 27.74"] gives
    rank 2, the name ["HAMILTON, NAFANUA"] (visitor marker removed, comma
    spacing normalised, upper case), team ["SAMOA"] and prelim ["27.74"];
    the name is the normalised form of the tokens before the age. *)
Theorem alternate_row_example :
  parse_alternate_line (s "2 Hamilton (V), Nafanua 15 Samoa 27.74")
  = Some (2%Z, s "HAMILTON, NAFANUA", s "SAMOA", s "27.74") /\
  normalise_name (s "Hamilton (V), Nafanua") = s "HAMILTON, NAFANUA".
Proof. split; vm_compute; reflexivity. Qed.

(** C7.  Cleaning ["2a 12-13 Years & Old"] gives exactly ["2a"], not
    ["2a 12"].  The range phrases come first in the list of age phrases: the
    first pattern alone removes the whole range phrase, whereas the
    single-age pattern ["\d{1,2}\s*Years?\s*Olds?"], applied to a range
    phrase on its own, leaves the start of the range behind. *)
Theorem range_phrases_first :
  clean_heat_label (s "2a 12-13 Years & Old") = s "2a" /\
  clean_heat_label (s "2a 12-13 Years & Old") <> s "2a 12" /\
  sub true (nth 0 patterns Eps) [] (s "2a 12-13 Years & Old") = s "2a " /\
  sub true (nth 4 patterns Eps) [] (s "2a 12-13 Years Old") = s "2a 12-".
Proof. repeat split; try (vm_compute; reflexivity). vm_compute. discriminate. Qed.

(** The name run is the longest run of leading tokens without a stop
    token. *)
Lemma name_run_spec (stop : str -> bool) (tokens : list str) :
  exists rest,
    tokens = name_run stop tokens ++ rest /\
    forallb (fun t => negb (stop t)) (name_run stop tokens) = true /\
    match rest with [] => True | t :: _ => stop t = true end.
Proof.
  induction tokens as [|t ts (rest & Heq & Hall & Hrest)]; simpl.
  - exists []. auto.
  - destruct (stop t) eqn:E.
    + exists (t :: ts). simpl. auto.
    + exists rest. simpl. rewrite E, Hall. split; [congruence | auto].
Qed.

(** C8.  The lane row ["3 Smith, Jane 14 NT"] gives lane 3 and the name
    ["SMITH, JANE"].  The name run of a row stops before the first token
    that is a bare one- or two-digit age, a sex+age token, a multi-class
    code, the literal NT or a time of the shape mm:ss.cc: the tokens of the
    row are the name run followed by nothing or by such a token. *)
Theorem lane_row_example :
  parse_lane_line (s "3 Smith, Jane 14 NT") = Some (3%Z, s "SMITH, JANE") /\
  name_run lane_stop (Py.split (s "Smith, Jane 14 NT")) = [s "Smith,"; s "Jane"] /\
  map lane_stop [s "14"; s "W17"; s "SM9"; s "NT"; s "1:02.33"; s "Jane"; s "123"]
  = [true; true; true; true; true; false; false] /\
  (forall tokens, exists rest,
      tokens = name_run lane_stop tokens ++ rest /\
      forallb (fun t => negb (lane_stop t)) (name_run lane_stop tokens) = true /\
      match rest with [] => True | t :: _ => lane_stop t = true end).
Proof.
  repeat split; try (vm_compute; reflexivity).
  intros tokens. apply name_run_spec.
Qed.

(* ===================================================================== *)
(** ** Facts about stripping and splitting *)
(* ===================================================================== *)

Section Strip.

Variable f : ascii -> bool.

Lemma lstrip_span z :
  exists a, z = a ++ Py.lstrip_by f z /\ forallb f a = true.
Proof.
  induction z as [|c z (a & Hz & Ha)]; simpl.
  - exists []. auto.
  - destruct (f c) eqn:E.
    + exists (c :: a). simpl. rewrite E, Ha. split; [congruence | reflexivity].
    + exists []. auto.
Qed.

Lemma lstrip_head z : headp f (Py.lstrip_by f z) = false.
Proof.
  induction z as [|c z IH]; simpl; auto.
  destruct (f c) eqn:E; simpl; auto.
Qed.

Lemma lstrip_id z : headp f z = false -> Py.lstrip_by f z = z.
Proof. destruct z as [|c z]; simpl; auto. intros ->. reflexivity. Qed.

Lemma lstrip_app_all w z :
  forallb f w = true -> Py.lstrip_by f (w ++ z) = Py.lstrip_by f z.
Proof.
  induction w as [|c w IH]; simpl; auto.
  intros H. apply andb_true_iff in H as [-> H]. auto.
Qed.

Lemma lstrip_all w : forallb f w = true -> Py.lstrip_by f w = [].
Proof.
  intros H. rewrite <- (app_nil_r w). rewrite lstrip_app_all; auto.
Qed.

Lemma forallb_rev (w : str) : forallb f (rev w) = forallb f w.
Proof.
  induction w as [|c w IH]; simpl; auto.
  rewrite forallb_app, IH. simpl. rewrite andb_true_r. apply andb_comm.
Qed.

Lemma rstrip_app_all z w :
  forallb f w = true -> Py.rstrip_by f (z ++ w) = Py.rstrip_by f z.
Proof.
  intros H. unfold Py.rstrip_by. rewrite rev_app_distr, lstrip_app_all; auto.
  now rewrite forallb_rev.
Qed.

Lemma rstrip_id z : headp f (rev z) = false -> Py.rstrip_by f z = z.
Proof.
  intros H. unfold Py.rstrip_by. rewrite lstrip_id; auto. apply rev_involutive.
Qed.

Lemma rstrip_span z :
  exists w, z = Py.rstrip_by f z ++ w /\ forallb f w = true.
Proof.
  destruct (lstrip_span (rev z)) as (a & Hz & Ha).
  exists (rev a). unfold Py.rstrip_by. rewrite <- rev_app_distr, <- Hz.
  rewrite rev_involutive, forallb_rev. auto.
Qed.

Lemma rstrip_last z : headp f (rev (Py.rstrip_by f z)) = false.
Proof. unfold Py.rstrip_by. rewrite rev_involutive. apply lstrip_head. Qed.

Lemma rstrip_all w : forallb f w = true -> Py.rstrip_by f w = [].
Proof.
  intros H. unfold Py.rstrip_by. rewrite lstrip_all; auto. now rewrite forallb_rev.
Qed.

(** Stripping on the right keeps the first character. *)
Lemma rstrip_headp (g : ascii -> bool) z :
  headp g (Py.rstrip_by f z) = true -> headp g z = true.
Proof.
  destruct (rstrip_span z) as (w & Hz & _). revert Hz.
  destruct (Py.rstrip_by f z) as [|c r]; simpl; [discriminate|].
  intros -> H. exact H.
Qed.

End Strip.

Lemma strip_span x :
  exists w0 w1, x = w0 ++ Py.strip x ++ w1 /\ allsp w0 = true /\ allsp w1 = true.
Proof.
  destruct (lstrip_span Py.is_space x) as (w0 & Hx & H0).
  destruct (rstrip_span Py.is_space (Py.lstrip_by Py.is_space x)) as (w1 & Hy & H1).
  exists w0, w1. unfold Py.strip. rewrite <- Hy. auto.
Qed.

Lemma strip_head x : headp Py.is_space (Py.strip x) = false.
Proof.
  unfold Py.strip. destruct (headp _ _) eqn:E; auto.
  apply rstrip_headp in E. now rewrite lstrip_head in E.
Qed.

Lemma strip_last x : headp Py.is_space (rev (Py.strip x)) = false.
Proof. apply rstrip_last. Qed.

(** A text that neither starts nor ends with whitespace is its own strip. *)
Lemma strip_id x :
  headp Py.is_space x = false -> headp Py.is_space (rev x) = false ->
  Py.strip x = x.
Proof.
  intros H1 H2. unfold Py.strip. rewrite lstrip_id; auto. now apply rstrip_id.
Qed.

Lemma strip_idem x : Py.strip (Py.strip x) = Py.strip x.
Proof. apply strip_id; [apply strip_head | apply strip_last]. Qed.

Lemma split_go_nosp t : forall cur x,
  nosp t = true -> Py.split_go cur (t ++ x) = Py.split_go (rev t ++ cur) x.
Proof.
  induction t as [|c t IH]; intros cur x H; simpl; auto.
  simpl in H. apply andb_true_iff in H as [Hc Ht].
  apply negb_true_iff in Hc. rewrite Hc, IH by auto.
  now rewrite <- app_assoc.
Qed.

Lemma split_tok t : token t -> Py.split t = [t].
Proof.
  intros [Hne Ht]. unfold Py.split. rewrite <- (app_nil_r t) at 1.
  rewrite split_go_nosp by auto. simpl. rewrite app_nil_r.
  destruct (rev t) eqn:E; [|now rewrite <- E, rev_involutive].
  apply (f_equal (@rev ascii)) in E. rewrite rev_involutive in E. contradiction.
Qed.

Lemma split_tok_sp t c x :
  token t -> Py.is_space c = true -> Py.split (t ++ c :: x) = t :: Py.split x.
Proof.
  intros [Hne Ht] Hc. unfold Py.split. rewrite split_go_nosp by auto.
  simpl. rewrite Hc, app_nil_r.
  destruct (rev t) eqn:E; [|now rewrite <- E, rev_involutive].
  apply (f_equal (@rev ascii)) in E. rewrite rev_involutive in E. contradiction.
Qed.

Lemma split_allsp ws x : allsp ws = true -> Py.split (ws ++ x) = Py.split x.
Proof.
  unfold Py.split. induction ws as [|c ws IH]; simpl; auto.
  intros H. apply andb_true_iff in H as [-> H]. auto.
Qed.

Lemma split_only_sp ws : allsp ws = true -> Py.split ws = [].
Proof. intros H. rewrite <- (app_nil_r ws). now rewrite split_allsp. Qed.

(** *** Greedy repetition *)

Lemma rep_greedy {A} (f : ascii -> bool) run : forall lo p rest
    (k : str -> str -> option A) res,
  forallb f run = true -> headp f rest = false -> (lo <= length run)%nat ->
  k (rev run ++ p) rest = Some res ->
  rep f lo None p (run ++ rest) k = Some res.
Proof.
  induction run as [|c run IH]; intros lo p rest k res Hr Hh Hlo Hk; simpl in *.
  - assert (lo = 0%nat) as -> by lia.
    destruct rest as [|c rest]; simpl in *; auto. now rewrite Hh.
  - apply andb_true_iff in Hr as [Hc Hr]. rewrite Hc. simpl.
    erewrite IH; eauto; [lia|]. now rewrite <- app_assoc in Hk.
Qed.

Lemma rep_one_none {A} (f : ascii -> bool) hi p q (k : str -> str -> option A) :
  headp f q = false -> rep f 1 hi p q k = None.
Proof. destruct q as [|c q]; simpl; auto. intros ->. reflexivity. Qed.

Lemma forallb_cs_space ws : forallb (cs_match false CSpace) ws = allsp ws.
Proof.
  unfold allsp. induction ws as [|a ws IH]; simpl; auto.
  now rewrite IH, cs_match_false_base.
Qed.

Lemma match_at_ws_some p ws r :
  ws <> [] -> allsp ws = true -> headp Py.is_space r = false ->
  match_at false re_ws p (ws ++ r) = Some (RMatch (rev p) ws r []).
Proof.
  intros Hne Hws Hr. unfold match_at, re_ws, plus. simpl.
  erewrite rep_greedy; [| | | |reflexivity].
  - simpl. now rewrite consumed_app.
  - now rewrite forallb_cs_space.
  - destruct r; simpl in *; auto. now rewrite cs_match_false_base.
  - destruct ws; [contradiction | simpl; lia].
Qed.

Lemma match_at_ws_none p q :
  headp Py.is_space q = false -> match_at false re_ws p q = None.
Proof.
  intros H. unfold match_at, re_ws, plus. simpl. rewrite rep_one_none; auto.
  destruct q; simpl in *; auto. now rewrite cs_match_false_base.
Qed.

Lemma sub_go_skip ic r repl w : forall p q,
  sub_go ic r repl (length w) p (w ++ q) = sub_go ic r repl 0 (rev w ++ p) q.
Proof.
  induction w as [|c w IH]; intros p q; simpl; auto.
  rewrite IH, <- app_assoc. reflexivity.
Qed.

(** [re.sub(r"\s+", repl, x)] on a run of whitespace, and on a run without
    whitespace. *)
Lemma sub_ws_run repl p ws r :
  ws <> [] -> allsp ws = true -> headp Py.is_space r = false ->
  sub_go false re_ws repl 0 p (ws ++ r)
  = expand repl (RMatch (rev p) ws r []) ++
    sub_go false re_ws repl 0 (rev ws ++ p) r.
Proof.
  intros Hne Hws Hr. destruct ws as [|c ws]; [contradiction|].
  change (sub_go false re_ws repl 0 p ((c :: ws) ++ r)) with
    (match match_at false re_ws p ((c :: ws) ++ r) with
     | Some m => expand repl m ++
         match length (m_text m) with
         | O => c :: sub_go false re_ws repl 0 (c :: p) (ws ++ r)
         | S n => sub_go false re_ws repl n (c :: p) (ws ++ r)
         end
     | None => c :: sub_go false re_ws repl 0 (c :: p) (ws ++ r)
     end).
  rewrite match_at_ws_some by auto. cbn [m_text length].
  rewrite sub_go_skip. change (rev (c :: ws)) with (rev ws ++ [c]).
  now rewrite <- app_assoc.
Qed.

Lemma sub_ws_nosp repl t : forall p q,
  nosp t = true ->
  sub_go false re_ws repl 0 p (t ++ q) = t ++ sub_go false re_ws repl 0 (rev t ++ p) q.
Proof.
  induction t as [|c t IH]; intros p q H; simpl app; auto.
  simpl in H. apply andb_true_iff in H as [Hc Ht]. apply negb_true_iff in Hc.
  change (sub_go false re_ws repl 0 p (c :: t ++ q)) with
    (match match_at false re_ws p (c :: t ++ q) with
     | Some m => expand repl m ++
         match length (m_text m) with
         | O => c :: sub_go false re_ws repl 0 (c :: p) (t ++ q)
         | S n => sub_go false re_ws repl n (c :: p) (t ++ q)
         end
     | None => c :: sub_go false re_ws repl 0 (c :: p) (t ++ q)
     end).
  rewrite match_at_ws_none by (simpl; auto).
  rewrite IH by auto. change (rev (c :: t)) with (rev t ++ [c]).
  now rewrite <- app_assoc.
Qed.

Lemma sub_ws_nil repl p : sub_go false re_ws repl 0 p [] = [].
Proof. reflexivity. Qed.

(** *** Induction on the runs of a text *)

Lemma run_ind (P : str -> Prop) :
  P [] ->
  (forall ws r, ws <> [] -> allsp ws = true -> headp Py.is_space r = false ->
                P r -> P (ws ++ r)) ->
  (forall t r, token t -> headp (fun c => negb (Py.is_space c)) r = false ->
               P r -> P (t ++ r)) ->
  forall x, P x.
Proof.
  intros Hnil Hws Htok x.
  induction x as [x IH] using (induction_ltof1 _ (@length ascii)).
  unfold ltof in IH. destruct x as [|c x]; [exact Hnil|].
  destruct (Py.is_space c) eqn:Ec.
  - destruct (lstrip_span Py.is_space (c :: x)) as (a & Hx & Ha).
    pose proof (lstrip_head Py.is_space (c :: x)) as Hh.
    destruct a as [|a0 a]; [cbn [app] in Hx; rewrite <- Hx in Hh; simpl in Hh; congruence|].
    rewrite Hx. apply Hws; [discriminate | exact Ha | exact Hh |].
    apply IH. rewrite Hx at 2. rewrite length_app. simpl. lia.
  - set (g := fun c => negb (Py.is_space c)).
    destruct (lstrip_span g (c :: x)) as (a & Hx & Ha).
    pose proof (lstrip_head g (c :: x)) as Hh.
    destruct a as [|a0 a];
      [cbn [app] in Hx; rewrite <- Hx in Hh; simpl in Hh; unfold g in Hh;
       rewrite Ec in Hh; discriminate|].
    rewrite Hx. apply Htok; [split; [discriminate | exact Ha] | exact Hh |].
    apply IH. rewrite Hx at 2. rewrite length_app. simpl. lia.
Qed.

Lemma headp_app_ne (f : ascii -> bool) (a b : str) :
  a <> [] -> headp f (a ++ b) = headp f a.
Proof. destruct a; [contradiction | reflexivity]. Qed.

Lemma token_head t : token t -> headp Py.is_space t = false.
Proof.
  intros [Hne Ht]. destruct t as [|c t]; [contradiction|]. simpl in *.
  apply andb_true_iff in Ht as [Hc _]. now apply negb_true_iff in Hc.
Qed.

Lemma nosp_rev t : nosp (rev t) = nosp t.
Proof. apply forallb_rev. Qed.

Lemma token_rev t : token t -> token (rev t).
Proof.
  intros [Hne Ht]. split; [|now rewrite nosp_rev].
  intros E. apply Hne. apply (f_equal (@rev ascii)) in E.
  now rewrite rev_involutive in E.
Qed.

Lemma token_last t : token t -> headp Py.is_space (rev t) = false.
Proof. intros H. apply token_head, token_rev, H. Qed.

(** The tokens of a text, by runs. *)
Lemma split_run_tok t r :
  token t -> headp (fun c => negb (Py.is_space c)) r = false ->
  Py.split (t ++ r) = t :: Py.split r.
Proof.
  intros Ht Hr. destruct r as [|c r].
  - rewrite app_nil_r. now apply split_tok.
  - simpl in Hr. apply negb_false_iff in Hr.
    rewrite split_tok_sp by auto.
    change (c :: r) with ([c] ++ r). rewrite split_allsp; auto.
    simpl. now rewrite Hr.
Qed.

Lemma split_tokens x : Forall token (Py.split x).
Proof.
  induction x as [|ws r Hne Hws Hr IH|t r Ht Hr IH] using run_ind.
  - constructor.
  - now rewrite split_allsp.
  - rewrite split_run_tok by auto. now constructor.
Qed.

Lemma split_nil_allsp x : Py.split x = [] -> allsp x = true.
Proof.
  induction x as [|ws r Hne Hws Hr IH|t r Ht Hr IH] using run_ind.
  - reflexivity.
  - rewrite split_allsp by auto. intros H. unfold allsp in *.
    rewrite forallb_app, Hws. now apply IH.
  - rewrite split_run_tok by auto. discriminate.
Qed.

Lemma split_go_allsp w : forall cur,
  allsp w = true -> Py.split_go cur w = Py.split_go cur [].
Proof.
  induction w as [|c w IH]; intros cur H; simpl; auto.
  simpl in H. apply andb_true_iff in H as [-> H].
  rewrite (IH [] H). simpl. destruct cur; reflexivity.
Qed.

Lemma split_app_allsp y : forall cur w,
  allsp w = true -> Py.split_go cur (y ++ w) = Py.split_go cur y.
Proof.
  induction y as [|c y IH]; intros cur w H.
  - now apply split_go_allsp.
  - simpl. destruct (Py.is_space c); [destruct cur|]; now rewrite IH.
Qed.

Lemma split_strip x : Py.split (Py.strip x) = Py.split x.
Proof.
  destruct (strip_span x) as (w0 & w1 & Hx & H0 & H1).
  rewrite Hx at 2. rewrite split_allsp by auto.
  unfold Py.split. now rewrite split_app_allsp.
Qed.

Lemma headp_rev_app (f : ascii -> bool) (a b : str) :
  b <> [] -> headp f (rev (a ++ b)) = headp f (rev b).
Proof.
  intros H. rewrite rev_app_distr. apply headp_app_ne.
  intros E. apply H. apply (f_equal (@rev ascii)) in E.
  now rewrite rev_involutive in E.
Qed.

Lemma allsp_last w : w <> [] -> allsp w = true -> headp Py.is_space (rev w) = true.
Proof.
  intros Hne H. unfold allsp in H. rewrite <- forallb_rev in H.
  destruct (rev w) as [|c r] eqn:E.
  - apply (f_equal (@rev ascii)) in E. rewrite rev_involutive in E. contradiction.
  - simpl in *. now apply andb_true_iff in H as [-> _].
Qed.

(** The shape of [re.sub(r"\s+", " ", x)]: the tokens of [x] with one
    space between them, with one space in front when [x] starts with
    whitespace and one behind when it ends with whitespace. *)
Lemma squeeze_shape x : forall p,
  sub_go false re_ws [RLit (s " ")] 0 p x
  = (if headp Py.is_space x then s " " else []) ++
    Py.join (s " ") (Py.split x) ++
    match Py.split x with
    | [] => []
    | _ => if headp Py.is_space (rev x) then s " " else []
    end.
Proof.
  induction x as [|ws r Hne Hws Hr IH|t r Ht Hr IH] using run_ind; intros p.
  - reflexivity.
  - rewrite sub_ws_run, IH, Hr, split_allsp by auto.
    rewrite headp_app_ne by auto.
    assert (headp Py.is_space ws = true) as ->.
    { destruct ws; [contradiction|]. simpl in *. now apply andb_true_iff in Hws as [-> _]. }
    destruct r as [|c r]; [reflexivity|].
    rewrite headp_rev_app by discriminate. reflexivity.
  - pose proof Ht as [Htne Htns].
    rewrite sub_ws_nosp, IH, split_run_tok by auto.
    rewrite headp_app_ne by auto. rewrite (token_head t) by auto.
    destruct r as [|c r].
    + simpl. rewrite !app_nil_r. rewrite (token_last t) by auto.
      now rewrite app_nil_r.
    + rewrite headp_rev_app by discriminate.
      simpl in Hr. apply negb_false_iff in Hr. cbn [headp]. rewrite Hr.
      destruct (Py.split (c :: r)) as [|t1 ts] eqn:Es.
      * apply split_nil_allsp in Es. rewrite allsp_last by (auto; discriminate).
        reflexivity.
      * change (Py.join (s " ") (t :: t1 :: ts))
          with (t ++ s " " ++ Py.join (s " ") (t1 :: ts)).
        cbn [app]. rewrite <- !app_assoc. reflexivity.
Qed.

Lemma join_tokens_head ts :
  Forall token ts -> headp Py.is_space (Py.join (s " ") ts) = false.
Proof.
  intros H. destruct H as [|t ts Ht Hts]; [reflexivity|].
  destruct ts; [now apply token_head|].
  cbn [Py.join]. rewrite headp_app_ne by (destruct Ht; auto). now apply token_head.
Qed.

Lemma join_tokens_last ts :
  Forall token ts -> headp Py.is_space (rev (Py.join (s " ") ts)) = false.
Proof.
  induction 1 as [|t ts Ht Hts IH]; [reflexivity|].
  destruct ts as [|t' ts]; [now apply token_last|].
  cbn [Py.join]. rewrite app_assoc, headp_rev_app; auto.
  inversion Hts as [|? ? [Hne _] _]; subst.
  destruct ts; cbn [Py.join]; [exact Hne|].
  destruct t'; [contradiction | discriminate].
Qed.

(** [re.sub(r"\s+", " ", x.strip())] is the tokens of [x] joined by single
    spaces; so is [re.sub(r"\s+", " ", x).strip()]. *)
Lemma squeeze_strip x :
  squeeze (Py.strip x) = Py.join (s " ") (Py.split x).
Proof.
  unfold squeeze, sub. rewrite squeeze_shape, strip_head, strip_last, split_strip.
  destruct (Py.split x); simpl; now rewrite ?app_nil_r.
Qed.

Lemma strip_pad (w0 w1 y : str) :
  allsp w0 = true -> allsp w1 = true ->
  headp Py.is_space y = false -> headp Py.is_space (rev y) = false ->
  Py.strip (w0 ++ y ++ w1) = y.
Proof.
  intros H0 H1 Hh Hl. unfold Py.strip.
  rewrite lstrip_app_all by auto.
  destruct y as [|c y].
  - simpl. rewrite lstrip_all by auto. reflexivity.
  - rewrite lstrip_id by (simpl in *; auto).
    rewrite rstrip_app_all by auto. now apply rstrip_id.
Qed.

Lemma strip_squeeze x :
  Py.strip (squeeze x) = Py.join (s " ") (Py.split x).
Proof.
  unfold squeeze, sub. rewrite squeeze_shape.
  apply strip_pad.
  - destruct (headp _ _); reflexivity.
  - destruct (Py.split x); [reflexivity|]. destruct (headp _ _); reflexivity.
  - apply join_tokens_head, split_tokens.
  - apply join_tokens_last, split_tokens.
Qed.

(* ===================================================================== *)
(** ** Alternate rows without an age *)
(* ===================================================================== *)

Lemma split_join ts : Forall token ts -> Py.split (Py.join (s " ") ts) = ts.
Proof.
  induction 1 as [|t ts Ht Hts IH]; [reflexivity|].
  destruct ts as [|t' ts]; [now apply split_tok|].
  change (Py.join (s " ") (t :: t' :: ts))
    with (t ++ " "%char :: Py.join (s " ") (t' :: ts)).
  rewrite split_tok_sp by auto. now rewrite IH.
Qed.

Lemma strip_join ts :
  Forall token ts -> Py.strip (Py.join (s " ") ts) = Py.join (s " ") ts.
Proof.
  intros H. apply strip_id; [now apply join_tokens_head | now apply join_tokens_last].
Qed.

Lemma newline_is_space a : Py.eqb_char a "010"%char = true -> Py.is_space a = true.
Proof.
  unfold Py.eqb_char, Py.is_space, Py.in_range. intros H.
  apply N.eqb_eq in H. rewrite H. reflexivity.
Qed.













(* ===================================================================== *)
(** ** Alternate rows in the state machine *)
(* ===================================================================== *)

Lemma digit_not_space a : Py.is_digit a = true -> Py.is_space a = false.
Proof. by_char a. Qed.

Lemma eqb_char_eq a b : Py.eqb_char a b = true -> a = b.
Proof.
  unfold Py.eqb_char, Py.code. intros H. apply N.eqb_eq in H.
  apply (f_equal ascii_of_N) in H. now rewrite !ascii_N_embedding in H.
Qed.

Lemma digits_nosp ds : forallb Py.is_digit ds = true -> nosp ds = true.
Proof.
  unfold nosp. induction ds as [|c ds IH]; simpl; auto. intros H.
  apply andb_true_iff in H as [Hc Hd]. now rewrite (digit_not_space c), IH.
Qed.

Lemma cs_digits w : forallb (cs_match false CDigit) w = true -> forallb Py.is_digit w = true.
Proof.
  induction w as [|c w IH]; simpl; auto. intros H.
  apply andb_true_iff in H as [Hc Hw]. rewrite cs_match_false_base in Hc.
  simpl in Hc. now rewrite Hc, IH.
Qed.

(** A text has one longest prefix in a set of characters. *)
Lemma span_unique (f : ascii -> bool) (a1 : str) : forall a2 b1 b2,
  a1 ++ b1 = a2 ++ b2 ->
  forallb f a1 = true -> forallb f a2 = true ->
  headp f b1 = false -> headp f b2 = false ->
  a1 = a2 /\ b1 = b2.
Proof.
  induction a1 as [|c a1 IH]; intros [|d a2] b1 b2 E H1 H2 Hb1 Hb2; simpl in *.
  - auto.
  - subst b1. simpl in Hb1. apply andb_true_iff in H2 as [H2 _]. congruence.
  - subst b2. simpl in Hb2. apply andb_true_iff in H1 as [H1 _]. congruence.
  - injection E as -> E. apply andb_true_iff in H1 as [_ H1].
    apply andb_true_iff in H2 as [_ H2].
    destruct (IH a2 b1 b2 E H1 H2 Hb1 Hb2) as [-> ->]. auto.
Qed.

(** A non-empty text that does not start with whitespace starts with a
    token. *)
Lemma first_token x :
  x <> [] -> headp Py.is_space x = false ->
  exists t r, x = t ++ r /\ token t /\
              headp (fun c => negb (Py.is_space c)) r = false /\
              Py.split x = t :: Py.split r.
Proof.
  intros Hne Hh. set (g := fun c => negb (Py.is_space c)).
  destruct (lstrip_span g x) as (t & Hx & Ht).
  pose proof (lstrip_head g x) as Hr.
  exists t, (Py.lstrip_by g x).
  assert (Htok : token t).
  { split; [|exact Ht]. intros ->. simpl in Hx.
    destruct x as [|c x]; [contradiction|]. rewrite <- Hx in Hr.
    simpl in Hr, Hh. unfold g in Hr. rewrite Hh in Hr. discriminate. }
  repeat split; auto; try apply Htok.
  rewrite Hx at 1. now apply split_run_tok.
Qed.

(** What a match of the alternate-row pattern says about the subject. *)
Lemma re_alt_sound y m :
  match_ false re_alt y = Some m ->
  exists ds c rest, y = ds ++ c :: rest /\ ds <> [] /\
                    forallb Py.is_digit ds = true /\ Py.is_space c = true.
Proof.
  intros H. apply match_at_sound in H as (st' & w & Hd & _ & _ & _).
  cbn in Hd.
  destruct Hd as (st0 & [_ ->] & st1 & (st2 & Hds & ->) & st3 & Hws & _).
  destruct Hds as (ds & Hs & _ & _ & Hds & Hlen & _).
  destruct Hws as (ws & Hs' & _ & _ & Hws & Hlen' & _).
  cbn in *. destruct ws as [|c ws]; [simpl in Hlen'; lia|].
  simpl in Hws. apply andb_true_iff in Hws as [Hc _].
  rewrite cs_match_false_base in Hc.
  exists ds, c, (ws ++ suf st3). rewrite Hs, Hs'. repeat split; auto.
  - intros ->. simpl in Hlen. lia.
  - now apply cs_digits.
Qed.

(** The shape of a line that [parse_alternate_line] accepts: digits, then
    whitespace. *)
Lemma alternate_line_shape line row :
  parse_alternate_line line = Some row ->
  headp Py.is_space line = false ->
  exists ds c r,
    line = ds ++ c :: r /\ ds <> [] /\ forallb Py.is_digit ds = true /\
    Py.is_space c = true /\
    exists y, squeeze (Py.strip line) = ds ++ " "%char :: y.
Proof.
  intros H Hh. unfold parse_alternate_line in H.
  destruct (match_ false re_alt (squeeze (Py.strip line))) as [m|] eqn:E;
    [clear H | discriminate].
  apply re_alt_sound in E as (ds & c & rest & Hy & Hne & Hds & Hc).
  rewrite squeeze_strip in Hy.
  destruct line as [|a line]; [destruct ds; discriminate|].
  destruct (first_token (a :: line) ltac:(discriminate) Hh)
    as (t & r & Hx & Ht & Hr & Hs).
  rewrite Hs in Hy.
  assert (Hj : exists tail, Py.join (s " ") (t :: Py.split r) = t ++ tail /\
             headp (fun c => negb (Py.is_space c)) tail = false /\
             (tail = [] \/ exists y, tail = " "%char :: y)).
  { destruct (Py.split r) as [|t' ts].
    - exists []. simpl. rewrite app_nil_r. auto.
    - exists (" "%char :: Py.join (s " ") (t' :: ts)). simpl. eauto. }
  destruct Hj as (tail & Hj & Htail & Hsh). rewrite Hj in Hy.
  destruct (span_unique (fun c => negb (Py.is_space c)) t ds tail (c :: rest))
    as [-> ->]; auto.
  { apply Ht. }
  { now apply digits_nosp. }
  { simpl. now rewrite Hc. }
  destruct Hsh as [Hsh | [y Hsh]]; [discriminate|].
  injection Hsh as -> ->.
  destruct r as [|c' r].
  - exfalso. change (Py.split []) with (@nil str) in Hj. cbn [Py.join] in Hj.
    rewrite <- (app_nil_r ds) in Hj at 1.
    apply app_inv_head in Hj. discriminate.
  - simpl in Hr. apply negb_false_iff in Hr.
    exists ds, c', r. repeat split; auto.
    rewrite squeeze_strip, Hs, Hj. eauto.
Qed.

Lemma digit_not_header_char a :
  Py.is_digit a = true ->
  cs_match true (CChar "E") a = false /\ cs_match true (CChar "F") a = false /\
  cs_match true (CChar "H") a = false.
Proof. by_char a. Qed.

Lemma digit_lower_head a :
  Py.is_digit a = true ->
  Py.eqb_char "l" (Py.lower_char a) = false /\
  Py.eqb_char "n" (Py.lower_char a) = false /\
  Py.eqb_char "a" (Py.lower_char a) = false /\
  Py.eqb_char "t" (Py.lower_char a) = false /\
  Py.eqb_char "f" (Py.lower_char a) = false.
Proof. by_char a. Qed.

(** A line that starts with a digit is no event header and no heat
    header. *)
Lemma re_event_digit a y :
  Py.is_digit a = true -> match_ true re_event (a :: y) = None.
Proof.
  intros Ha. destruct (match_ true re_event (a :: y)) as [m|] eqn:E; auto.
  exfalso. apply match_at_sound in E as (st' & w & Hd & _).
  cbn in Hd. destruct Hd as (st0 & [_ ->] & st1 & (st2 & Hc & _) & _).
  destruct Hc as (a' & Hs & Hm & _). cbn in Hs. injection Hs as <- _.
  destruct (digit_not_header_char a Ha) as (HE & _). congruence.
Qed.

Lemma re_heat_digit a y :
  Py.is_digit a = true -> match_ true re_heat (a :: y) = None.
Proof.
  intros Ha. destruct (match_ true re_heat (a :: y)) as [m|] eqn:E; auto.
  exfalso. apply match_at_sound in E as (st' & w & Hd & _).
  cbn in Hd. destruct Hd as (st0 & [_ ->] & st1 & (st2 & Hc & _) & _).
  destruct (digit_not_header_char a Ha) as (_ & HF & HH).
  destruct Hc as [(st3 & (a' & Hs & Hm & _) & _) | (st3 & (a' & Hs & Hm & _) & _)];
    cbn in Hs; injection Hs as <- _; congruence.
Qed.

Lemma re_code_line_sound x m :
  match_ false re_code_line x = Some m ->
  exists w z, x = w ++ "-"%char :: z /\ forallb Py.is_digit w = true.
Proof.
  intros H. apply match_at_sound in H as (st' & w & Hd & _).
  cbn in Hd. destruct Hd as (st0 & [_ ->] & st1 & Hds & st2 & Hc & _).
  destruct Hds as (ds & Hs & _ & _ & Hds & _).
  destruct Hc as (a & Hs' & Ha & _). cbn in *.
  rewrite cs_match_false_base in Ha. simpl in Ha. apply eqb_char_eq in Ha as ->.
  exists ds, (suf st2). rewrite Hs, Hs'. split; auto. now apply cs_digits.
Qed.

Lemma startswith_head p0 p x0 x :
  Py.eqb_char p0 x0 = false -> Py.startswith (p0 :: p) (x0 :: x) = false.
Proof. simpl. now intros ->. Qed.

(** A line of digits followed by whitespace is not boilerplate and opens
    no alternates block. *)
Lemma digits_line_not_boilerplate ds c r :
  ds <> [] -> forallb Py.is_digit ds = true -> Py.is_space c = true ->
  is_boilerplate (ds ++ c :: r) = false /\
  Py.startswith (s "alternates") (Py.lower (ds ++ c :: r)) = false.
Proof.
  intros Hne Hds Hc.
  assert (Hcode : matches false re_code_line (ds ++ c :: r) = false).
  { unfold matches.
    destruct (match_ false re_code_line (ds ++ c :: r)) as [m|] eqn:E; auto.
    exfalso. apply re_code_line_sound in E as (w & z & Hx & Hw).
    destruct (span_unique Py.is_digit ds w (c :: r) ("-"%char :: z)) as [_ Hr];
      auto.
    - destruct (Py.is_digit c) eqn:Ed; auto.
      apply digit_not_space in Ed. simpl. congruence.
    - injection Hr as -> _. discriminate. }
  destruct ds as [|a ds]; [contradiction|].
  simpl in Hds. apply andb_true_iff in Hds as [Ha _].
  destruct (digit_lower_head a Ha) as (Hl & Hn & Haa & Ht & Hf).
  unfold is_boilerplate. rewrite Hcode.
  change (Py.lower ((a :: ds) ++ c :: r))
    with (Py.lower_char a :: Py.lower (ds ++ c :: r)).
  unfold s; cbn [list_ascii_of_string].
  rewrite !startswith_head by assumption. auto.
Qed.

(** C6.  In alternates mode, a line from which an alternate row is
    extracted produces an entry exactly when the current event already has
    a heat: the entry carries the fields of the current event, the label of
    its last heat and the current group heading, and is appended to the
    alternates; when the event has no heat yet the line changes nothing. *)
Theorem alternate_row_needs_a_heat (cap : option nat) (st : pstate) (raw : str)
    (ev : Event) (rk : Z) (nm tm pr : str) :
  in_alternates st = true ->
  current_event st = Some ev ->
  parse_alternate_line (Py.strip raw) = Some (rk, nm, tm, pr) ->
  (heats ev = [] -> step cap st raw = st) /\
  (forall hs h, heats ev = hs ++ [h] ->
     step cap st raw =
     mkState (events st)
       (alternates st ++
        [mkAlternateEntry (number ev) (gender ev) (event_code ev) (age_group ev)
                          (label h) (current_alt_group st) rk nm tm pr])
       (Some ev) (current_heat st) true (current_alt_group st)).
Proof.
  intros Hin Hev Hrow.
  destruct (alternate_line_shape _ _ Hrow (strip_head raw))
    as (ds & c & r & Hline & Hne & Hds & Hc & y & Hy).
  destruct (digits_line_not_boilerplate ds c r Hne Hds Hc) as [Hb Ha].
  assert (Hstep : step cap st raw =
            match last (heats ev) with
            | Some h =>
                mkState (events st)
                  (alternates st ++
                   [make_alternate ev h (current_alt_group st) (rk, nm, tm, pr)])
                  (current_event st) (current_heat st)
                  (in_alternates st) (current_alt_group st)
            | None => st
            end).
  { unfold step. rewrite Hline in *.
    destruct ds as [|a ds]; [contradiction|].
    simpl in Hds. apply andb_true_iff in Hds as [Hda _].
    cbn [app] in *.
    assert (parse_event_header (a :: ds ++ c :: r) = None) as ->.
    { unfold parse_event_header. rewrite Hy. now rewrite re_event_digit. }
    rewrite Hev, Hb, Ha.
    assert (parse_heat_label (a :: ds ++ c :: r) = None) as ->.
    { unfold parse_heat_label. rewrite Hy. now rewrite re_heat_digit. }
    rewrite Hin, Hrow. reflexivity. }
  split.
  - intros Hh. rewrite Hstep, Hh. reflexivity.
  - intros hs h Hh. rewrite Hstep, Hh, last_snoc, Hev, Hin. reflexivity.
Qed.

Lemma alternate_row_needs_a_heat_witness :
  in_alternates demo_state = true /\
  current_event demo_state = Some demo_event /\
  parse_alternate_line (Py.strip (s "1 Shumack, Heidi 16 Sopac 26.25"))
  = Some (1%Z, s "SHUMACK, HEIDI", s "SOPAC", s "26.25") /\
  alternates (step None demo_state (s "1 Shumack, Heidi 16 Sopac 26.25"))
  = [mkAlternateEntry 1 (s "W") (s "50FS") (s "15 & Over") (s "1a Super Final")
                      (s "Alternates 15 & Over") 1 (s "SHUMACK, HEIDI")
                      (s "SOPAC") (s "26.25")].
Proof.
  assert (H1 : in_alternates demo_state = true) by (vm_compute; reflexivity).
  assert (H2 : current_event demo_state = Some demo_event)
    by (vm_compute; reflexivity).
  assert (H3 : parse_alternate_line (Py.strip (s "1 Shumack, Heidi 16 Sopac 26.25"))
               = Some (1%Z, s "SHUMACK, HEIDI", s "SOPAC", s "26.25"))
    by (vm_compute; reflexivity).
  split; [exact H1|]. split; [exact H2|]. split; [exact H3|].
  destruct (alternate_row_needs_a_heat None demo_state
              (s "1 Shumack, Heidi 16 Sopac 26.25") demo_event
              1%Z (s "SHUMACK, HEIDI") (s "SOPAC") (s "26.25") H1 H2 H3)
    as [_ H].
  rewrite (H [] (mkHeat (s "Final 1a Super Final") (s "1a Super Final") ∅)
             eq_refl).
  vm_compute. reflexivity.
Defined.

(* ===================================================================== *)
(** ** The gender word of an event header *)
(* ===================================================================== *)

Lemma lower_char_idem a : Py.lower_char (Py.lower_char a) = Py.lower_char a.
Proof. by_char a. Qed.

Lemma lower_upper_char a : Py.lower_char (Py.upper_char a) = Py.lower_char a.
Proof. by_char a. Qed.

Lemma is_space_lower a : Py.is_space (Py.lower_char a) = Py.is_space a.
Proof. by_char a. Qed.

(** Under [re.IGNORECASE] a literal character matches the characters with
    the same lower case. *)
Lemma cs_char_ci a b :
  cs_match true (CChar b) a = true -> Py.lower_char a = Py.lower_char b.
Proof.
  unfold cs_match. simpl. rewrite !orb_true_iff.
  intros [H | [H | H]]; apply eqb_char_eq in H; subst.
  - reflexivity.
  - now rewrite lower_char_idem.
  - now rewrite lower_upper_char.
Qed.

Lemma nosp_lower w : nosp (Py.lower w) = nosp w.
Proof.
  unfold nosp. induction w as [|c w IH]; simpl; auto.
  now rewrite is_space_lower, IH.
Qed.

(** A literal word matches a piece of the subject that is the word up to
    case, and captures nothing. *)
Lemma den_lit x : forall st st',
  den true (lit x) st st' ->
  exists w, suf st = w ++ suf st' /\ pre st' = rev w ++ pre st /\
            caps st' = caps st /\ Py.lower w = Py.lower (s x).
Proof.
  unfold lit. generalize (s x). intros cs.
  induction cs as [|c cs IH]; intros st st' H.
  - simpl in H. subst. exists []. auto.
  - destruct cs as [|c2 cs].
    + simpl in H. destruct H as (a & Hs & Ha & Hp & Hc).
      exists [a]. simpl. apply cs_char_ci in Ha. rewrite Ha. auto.
    + change (cat (map chr (c :: c2 :: cs)))
        with (Seq (chr c) (cat (map chr (c2 :: cs)))) in H.
      simpl in H. destruct H as (st1 & (a & Hs & Ha & Hp & Hc) & H).
      apply IH in H as (w & Hs' & Hp' & Hc' & Hw).
      exists (a :: w). simpl. apply cs_char_ci in Ha.
      rewrite Hs, Hs', Hp', Hp, Hc', Hc, Ha, <- app_assoc. simpl in Hw.
      rewrite Hw. auto.
Qed.

Lemma lower_token w x :
  Py.lower w = s x -> s x <> [] -> nosp (s x) = true -> token w.
Proof.
  intros H Hne Hns. split.
  - intros ->. simpl in H. congruence.
  - rewrite <- nosp_lower, H. exact Hns.
Qed.

Lemma split_tok_ws t ws x :
  token t -> ws <> [] -> allsp ws = true ->
  Py.split (t ++ ws ++ x) = t :: Py.split x.
Proof.
  intros Ht Hne Hws. destruct ws as [|c ws]; [contradiction|].
  simpl in Hws. apply andb_true_iff in Hws as [Hc Hws].
  simpl. rewrite split_tok_sp by auto. now rewrite split_allsp.
Qed.

Lemma cs_spaces w :
  forallb (cs_match true CSpace) w = true -> allsp w = true.
Proof.
  unfold allsp. induction w as [|c w IH]; simpl; auto. intros H.
  apply andb_true_iff in H as [Hc Hw]. rewrite IH by auto.
  unfold cs_match in Hc. simpl in Hc. rewrite is_space_lower in Hc.
  destruct (Py.is_space c) eqn:E; auto. simpl in Hc.
  revert E Hc. clear. by_char c.
Qed.

Lemma cs_digits_ci w :
  forallb (cs_match true CDigit) w = true -> forallb Py.is_digit w = true.
Proof.
  induction w as [|c w IH]; simpl; auto. intros H.
  apply andb_true_iff in H as [Hc Hw]. rewrite IH by auto.
  rewrite andb_true_r. revert Hc. clear. by_char c.
Qed.

Lemma nonempty_length {A} (w : list A) : (1 <= length w)%nat -> w <> [].
Proof. destruct w; simpl; [lia | discriminate]. Qed.

(** What a match of the event-header pattern says: the third token of the
    subject is group 2, and it is one of the five gender words up to
    case. *)
Lemma re_event_sound y m :
  match_ true re_event y = Some m ->
  nth 2 (Py.split y) [] = group m 2 /\ In (Py.lower (group m 2)) gender_words.
Proof.
  intros H. apply match_at_sound in H as (st' & w & Hd & _ & _ & ->).
  cbn [den re_event cat plus star alts] in Hd.
  destruct Hd as (st0 & [_ ->] & st1 & Hev & st2 & Hw1 & st3 &
                  (st4 & Hds & ->) & st5 & Hw2 & st6 & (st7 & Hg & ->) &
                  st8 & Hw3 & st9 & (st10 & Hrest & ->) & _ & ->).
  apply den_lit in Hev as (ev & Hs0 & Hp0 & Hc0 & Hev).
  destruct Hw1 as (w1 & Hs1 & Hp1 & Hc1 & Hw1 & Hl1 & _).
  destruct Hds as (ds & Hs2 & Hp2 & Hc2 & Hds & Hl2 & _).
  destruct Hw2 as (w2 & Hs3 & Hp3 & Hc3 & Hw2 & Hl3 & _).
  destruct Hw3 as (w3 & Hs4 & Hp4 & Hc4 & Hw3 & Hl4 & _).
  destruct Hrest as (rs & Hs5 & Hp5 & Hc5 & _).
  assert (Hgw : exists gw, suf st5 = gw ++ suf st7 /\ pre st7 = rev gw ++ pre st5 /\
                  caps st7 = caps st5 /\ In (Py.lower gw) gender_words).
  { unfold gender_words.
    destruct Hg as [Hg | [Hg | [Hg | [Hg | Hg]]]];
      apply den_lit in Hg as (gw & ? & ? & ? & Hl); exists gw;
      repeat split; auto; rewrite Hl; simpl; auto 10. }
  destruct Hgw as (gw & Hs6 & Hp6 & Hc6 & Hin).
  cbn [pre suf caps] in *.
  assert (Hgrp : group (RMatch (rev []) w (suf st10)
                          ((3%nat, consumed (pre st8) (pre st10)) :: caps st10)) 2
                 = gw).
  { unfold group. cbn [m_caps lookup_cap Nat.eqb]. rewrite Hc5, Hc4.
    cbn [lookup_cap Nat.eqb]. rewrite Hp6. now rewrite consumed_app. }
  rewrite Hgrp. split; [|exact Hin].
  assert (Hy : y = ev ++ w1 ++ ds ++ w2 ++ gw ++ w3 ++ suf st8).
  { rewrite Hs0, Hs1, Hs2, Hs3, Hs6, Hs4. reflexivity. }
  assert (Htev : token ev).
  { apply (lower_token ev "event"); [rewrite Hev | discriminate|]; reflexivity. }
  assert (Htds : token ds).
  { split; [now apply nonempty_length |].
    now apply digits_nosp, cs_digits_ci. }
  assert (Htgw : token gw).
  { unfold gender_words in Hin. simpl in Hin.
    destruct Hin as [Hl | [Hl | [Hl | [Hl | [Hl | []]]]]]; symmetry in Hl;
      [ apply (lower_token gw "girls") | apply (lower_token gw "women")
      | apply (lower_token gw "boys") | apply (lower_token gw "men")
      | apply (lower_token gw "mixed") ]; auto; try discriminate. }
  rewrite Hy.
  rewrite split_tok_ws by (auto using nonempty_length, cs_spaces).
  rewrite split_tok_ws by (auto using nonempty_length, cs_spaces).
  rewrite split_tok_ws by (auto using nonempty_length, cs_spaces).
  reflexivity.
Qed.

Lemma split_squeeze_strip line : Py.split (squeeze (Py.strip line)) = Py.split line.
Proof. rewrite squeeze_strip. apply split_join, split_tokens. Qed.

Lemma gender_of_words w :
  In w gender_words -> In (gender_of w) [s "W"; s "M"; s "X"].
Proof.
  unfold gender_words. simpl.
  intros [<- | [<- | [<- | [<- | [<- | []]]]]]; vm_compute; auto.
Qed.

(** [Raising.parse_event_header] is [parse_event_header] behind the call
    of [int]. *)
Lemma raising_event_header line :
  Raising.parse_event_header line =
  match match_ true re_event (squeeze (Py.strip line)) with
  | None => Ok None
  | Some m =>
      if (Py.MAX_STR_DIGITS <? Z.of_nat (length (group m 1)))%Z
      then Raise ValueError
      else Ok (parse_event_header line)
  end.
Proof.
  unfold Raising.parse_event_header, parse_event_header, Raising.int.
  destruct (match_ true re_event (squeeze (Py.strip line))) as [m|];
    [|reflexivity].
  destruct (Py.MAX_STR_DIGITS <? Z.of_nat (length (group m 1)))%Z;
    cbn [bind]; [reflexivity|].
  repeat case_match; simplify_eq; reflexivity.
Qed.

(** The gender word of a line that matches the event-header pattern is
    one of the five words of the pattern. *)
Lemma event_header_gender_word line m :
  match_ true re_event (squeeze (Py.strip line)) = Some m ->
  Py.lower (nth 2 (Py.split line) []) = Py.lower (group m 2) /\
  In (gender_of (Py.lower (group m 2))) [s "W"; s "M"; s "X"].
Proof.
  intros E. apply re_event_sound in E as [Hn Hin].
  rewrite split_squeeze_strip in Hn. rewrite Hn.
  split; [reflexivity | now apply gender_of_words].
Qed.

(** C1, as the code has it, for ASCII text.  The event-header pattern
    names the five gender words, so an ASCII line whose third token is any
    other word is not an event header at all: extraction returns [None].
    A recognised ASCII header therefore always carries the gender W, M or
    X, never the empty string.  (Beyond ASCII, [re.IGNORECASE] lets the
    pattern accept letters such as the dotless i, which [str.lower] does
    not map to a key of the dictionary; the matcher here does not fold
    them.) *)
Theorem unmapped_gender_word_rejected (line : str) :
  Py.isascii line = true ->
  (gender_of (Py.lower (nth 2 (Py.split line) [])) = [] ->
   Raising.parse_event_header line = Ok None) /\
  (forall n g c a,
     Raising.parse_event_header line = Ok (Some (n, g, c, a)) ->
     In g [s "W"; s "M"; s "X"]).
Proof.
  intros _. rewrite raising_event_header.
  destruct (match_ true re_event (squeeze (Py.strip line))) as [m|] eqn:E.
  - destruct (event_header_gender_word _ _ E) as [Hn Hin]. split.
    + intros H. rewrite Hn in H. rewrite H in Hin. simpl in Hin.
      destruct Hin as [Hin | [Hin | [Hin | []]]]; discriminate.
    + intros n g c a H.
      destruct (Py.MAX_STR_DIGITS <? Z.of_nat (length (group m 1)))%Z;
        [discriminate|].
      injection H as H.
      assert (g = gender_of (Py.lower (group m 2))) as ->; [|exact Hin].
      unfold parse_event_header in H. rewrite E in H.
      repeat case_match; simplify_eq; reflexivity.
  - split; [reflexivity | discriminate].
Qed.

Lemma unmapped_gender_word_rejected_witness :
  Py.isascii (s "Event 7 Open 100 LC Meter Backstroke") = true /\
  gender_of (Py.lower (nth 2 (Py.split (s "Event 7 Open 100 LC Meter Backstroke")) []))
  = [] /\
  Raising.parse_event_header (s "Event 7 Open 100 LC Meter Backstroke") = Ok None /\
  Raising.parse_event_header (s "Event 8 Mixed 12 & Under 200 LC Meter IM")
  = Ok (Some (8%Z, s "X", s "200IM", s "12 & Under")) /\
  In (s "X") [s "W"; s "M"; s "X"].
Proof.
  split; [reflexivity|]. split; [reflexivity|]. split.
  - apply (unmapped_gender_word_rejected (s "Event 7 Open 100 LC Meter Backstroke"));
      reflexivity.
  - split; [vm_compute; reflexivity|].
    apply (proj2 (unmapped_gender_word_rejected
                    (s "Event 8 Mixed 12 & Under 200 LC Meter IM") eq_refl)
                 8%Z (s "X") (s "200IM") (s "12 & Under")).
    vm_compute. reflexivity.
Defined.

(** C1, as the specification words it, fails: ["Open"] is not a mapped
    gender word, and the line ["Event 1 Open 50 LC Meter Freestyle"] is
    rejected instead of being recognised with an empty gender. *)
Lemma unmapped_gender_word_counterexample :
  Py.isascii (s "Event 1 Open 50 LC Meter Freestyle") = true /\
  Py.split (s "Event 1 Open 50 LC Meter Freestyle")
  = [s "Event"; s "1"; s "Open"; s "50"; s "LC"; s "Meter"; s "Freestyle"] /\
  gender_of (Py.lower (s "Open")) = [] /\
  Raising.parse_event_header (s "Event 1 Open 50 LC Meter Freestyle") = Ok None /\
  ~ (exists n c a,
       Raising.parse_event_header (s "Event 1 Open 50 LC Meter Freestyle")
       = Ok (Some (n, [], c, a))).
Proof.
  split; [reflexivity|]. split; [vm_compute; reflexivity|].
  split; [vm_compute; reflexivity|]. split; [vm_compute; reflexivity|].
  intros (n & c & a & H). vm_compute in H. discriminate.
Qed.

(* ===================================================================== *)
(** ** Title inference *)
(* ===================================================================== *)

(** A captured group is a piece of the subject: it is no longer. *)
Lemma consumed_length p0 p1 : (length (consumed p0 p1) <= length p1)%nat.
Proof.
  unfold consumed. rewrite length_rev, length_take. lia.
Qed.

Lemma den_caps ic r : forall st st' b,
  den ic r st st' ->
  (length (pre st') <= b)%nat ->
  Forall (fun c => (length (snd c) <= b)%nat) (caps st) ->
  Forall (fun c => (length (snd c) <= b)%nat) (caps st').
Proof.
  induction r as [|c|r1 IH1 r2 IH2|r1 IH1 r2 IH2|r1 IH1|c lo hi|n r1 IH1| | |];
    intros st st' b H Hb Hc; simpl in H.
  - now subst.
  - destruct H as (a & _ & _ & _ & ->). exact Hc.
  - destruct H as (st1 & H1 & H2).
    destruct (den_span _ _ _ _ H2) as (w & _ & Hp).
    apply (IH2 st1 st' b H2 Hb). apply (IH1 st st1 b H1); [|exact Hc].
    rewrite Hp, length_app in Hb. lia.
  - destruct H as [H | H]; eauto.
  - destruct H as [H | ->]; eauto.
  - destruct H as (w & _ & _ & -> & _). exact Hc.
  - destruct H as (st1 & H1 & ->). cbn [caps pre] in *.
    constructor; [cbn [snd]; pose proof (consumed_length (pre st) (pre st1)); lia|].
    eapply IH1; eauto.
  - destruct H as [_ ->]. exact Hc.
  - destruct H as [_ ->]. exact Hc.
  - destruct H as [_ ->]. exact Hc.
Qed.

Lemma lookup_cap_length n l b :
  Forall (fun c => (length (snd c) <= b)%nat) l ->
  forall x, lookup_cap n l = Some x -> (length x <= b)%nat.
Proof.
  induction 1 as [|[i y] l Hy _ IH]; intros x H; simpl in H; [discriminate|].
  destruct (Nat.eqb i n); [injection H as <-; exact Hy | now apply IH].
Qed.

Lemma match_at_group_length ic r p q m n :
  match_at ic r p q = Some m ->
  (length (group m n) <= length p + length q)%nat.
Proof.
  intros H. apply match_at_sound in H as (st' & w & Hd & Hq & Hp & ->).
  unfold group. cbn [m_caps].
  destruct (lookup_cap n (caps st')) as [x|] eqn:E; [|simpl; lia].
  eapply lookup_cap_length; [|exact E].
  eapply den_caps; [exact Hd | | constructor].
  rewrite Hp, Hq, !length_app, length_rev. lia.
Qed.

Lemma search_go_group_length ic r q : forall p m n,
  search_go ic r p q = Some m ->
  (length (group m n) <= length p + length q)%nat.
Proof.
  induction q as [|c q IH]; intros p m n H; simpl in H.
  - destruct (match_at ic r p []) eqn:E; [|discriminate].
    injection H as <-. eapply match_at_group_length, E.
  - destruct (match_at ic r p (c :: q)) eqn:E.
    + injection H as <-. eapply match_at_group_length, E.
    + apply (IH _ _ n) in H. simpl in *. lia.
Qed.

Lemma search_group_length ic r x m n :
  search ic r x = Some m -> (length (group m n) <= length x)%nat.
Proof. intros H. apply (search_go_group_length _ _ _ _ _ n) in H. simpl in H. lia. Qed.

(** Where [re.search] found its match. *)
Lemma search_go_position ic r q : forall p m,
  search_go ic r p q = Some m ->
  exists p' q', match_at ic r p' q' = Some m /\ rev p' ++ q' = rev p ++ q.
Proof.
  induction q as [|c q IH]; intros p m H; simpl in H.
  - destruct (match_at ic r p []) eqn:E; [|discriminate].
    injection H as <-. eauto.
  - destruct (match_at ic r p (c :: q)) eqn:E.
    + injection H as <-. eauto.
    + apply IH in H as (p' & q' & Hm & Hpq). exists p', q'.
      split; [exact Hm|]. rewrite Hpq. simpl. now rewrite <- app_assoc.
Qed.

(** A text that holds a date range holds a slash. *)
Lemma date_range_has_slash meet m :
  search false re_date_range meet = Some m -> In "/"%char meet.
Proof.
  intros H. apply search_go_position in H as (p & q & H & Hpq).
  simpl in Hpq. rewrite <- Hpq. apply in_or_app. right.
  apply match_at_sound in H as (st' & w & Hd & _ & _ & _).
  cbn [den re_date_range re_dmy cat star plus upto chr] in Hd.
  destruct Hd as (st1 & (a & Hs0 & _) & st2 & (w1 & Hs1 & _) & st3 &
                  (st4 & (st5 & (w2 & Hs2 & _) & st6 & (b & Hs3 & Hb & _) & _) & _)
                  & _).
  cbn [suf] in *. rewrite cs_match_false_base in Hb. cbn [cs_base] in Hb.
  apply eqb_char_eq in Hb. subst b.
  rewrite Hs0, Hs1, Hs2, Hs3. right. apply in_or_app. right.
  apply in_or_app. right. now left.
Qed.

Lemma is_digit_lower a : Py.is_digit (Py.lower_char a) = Py.is_digit a.
Proof. by_char a. Qed.

Lemma forallb_digit_lower x :
  forallb Py.is_digit (Py.lower x) = forallb Py.is_digit x.
Proof.
  induction x as [|a y IH]; simpl; auto. now rewrite is_digit_lower, IH.
Qed.

Lemma isdigit_lower x : Py.isdigit (Py.lower x) = Py.isdigit x.
Proof.
  destruct x as [|c x]; [reflexivity|].
  apply (forallb_digit_lower (c :: x)).
Qed.

(** [int] raises only on more than 4300 digits, and only [ValueError]. *)
Lemma int_cases x :
  ((Z.of_nat (length x) <= Py.MAX_STR_DIGITS)%Z /\ Raising.int x = Ok (Py.int x)) \/
  ((Py.MAX_STR_DIGITS < Z.of_nat (length x))%Z /\ Raising.int x = Raise ValueError).
Proof.
  unfold Raising.int.
  destruct (Py.MAX_STR_DIGITS <? Z.of_nat (length x))%Z eqn:E;
    [right; apply Z.ltb_lt in E | left; apply Z.ltb_ge in E]; auto.
Qed.

(** The night number: it is missing only when the night token is a run of
    more than 4300 digits. *)
Lemma night_of_cases prog :
  (exists n, night_of prog = Ok n) \/
  (night_of prog = Raise ValueError /\
   exists m2, search true re_night prog = Some m2 /\
              Py.isdigit (group m2 1) = true /\
              (Py.MAX_STR_DIGITS < Z.of_nat (length (group m2 1)))%Z).
Proof.
  unfold night_of. destruct (search true re_night prog) as [m2|] eqn:E; [|eauto].
  rewrite isdigit_lower.
  destruct (Py.isdigit (group m2 1)) eqn:Ed; [|cbn [bind]; eauto].
  destruct (int_cases (Py.lower (group m2 1))) as [[_ ->] | [Hl ->]];
    cbn [bind]; [eauto|].
  right. split; [reflexivity|]. exists m2. split; [reflexivity|].
  split; [exact Ed|]. unfold Py.lower in Hl. now rewrite length_map in Hl.
Qed.

Lemma strptime_raises x e : strptime_dmy x = Raise e -> e = ValueError.
Proof. unfold strptime_dmy. repeat case_match; congruence. Qed.

Lemma add_days_raises d n e : add_days d n = Raise e -> e = OverflowError.
Proof. unfold add_days. repeat case_match; congruence. Qed.

(** C2, as the code has it.  For ASCII first-page lines, with [meet] the
    first and [prog] the second line (empty when missing):
    - without a match of the date pattern in [meet], and with a program
      line of at most 4300 characters, the title is returned with an empty
      date; a meet line without a slash has no such match;
    - without a night token in [prog] the night number is 1;
    - with a matched start date that is a calendar date, a night number,
      and a shifted date within the years 1..9999, the title is returned
      with that date;
    - the computation raises in three cases only: [ValueError] when the
      matched start date is not a calendar date, [ValueError] when the
      night token is a run of more than 4300 digits, [OverflowError] when
      the shift leaves the supported range. *)
Theorem title_inference_outcomes (lines : list str) :
  forallb Py.isascii lines = true ->
  let meet := nth 0 lines [] in
  let prog := nth 1 lines [] in
  (search false re_date_range meet = None ->
   (Z.of_nat (length prog) <= Py.MAX_STR_DIGITS)%Z ->
   exists n, night_of prog = Ok n /\
             infer_day_title lines = Ok (title_of n [])) /\
  (~ In "/"%char meet -> search false re_date_range meet = None) /\
  (search true re_night prog = None -> night_of prog = Ok 1%Z) /\
  (forall m d n d',
     search false re_date_range meet = Some m ->
     strptime_dmy (group m 1) = Ok d ->
     night_of prog = Ok n ->
     add_days d (n - 1) = Ok d' ->
     infer_day_title lines = Ok (title_of n (strftime_dmy d'))) /\
  (forall e,
     infer_day_title lines = Raise e ->
     (e = ValueError /\
      exists m, search false re_date_range meet = Some m /\
                strptime_dmy (group m 1) = Raise ValueError) \/
     (e = ValueError /\
      exists m2, search true re_night prog = Some m2 /\
                 Py.isdigit (group m2 1) = true /\
                 (Py.MAX_STR_DIGITS < Z.of_nat (length (group m2 1)))%Z) \/
     (e = OverflowError /\
      exists m d n, search false re_date_range meet = Some m /\
                    strptime_dmy (group m 1) = Ok d /\
                    night_of prog = Ok n /\
                    add_days d (n - 1) = Raise OverflowError)).
Proof.
  intros _ meet prog. unfold infer_day_title, start_date_of. fold meet prog.
  split; [|split; [|split; [|split]]].
  - intros -> Hlen. cbn [bind].
    destruct (night_of_cases prog) as [[n Hn] | [_ (m2 & Hs & _ & Hl)]].
    + exists n. rewrite Hn. split; reflexivity.
    + apply (search_group_length _ _ _ _ 1%nat) in Hs. lia.
  - intros Hno. destruct (search false re_date_range meet) as [m|] eqn:E;
      [|reflexivity].
    exfalso. apply Hno. eapply date_range_has_slash, E.
  - intros H. unfold night_of. now rewrite H.
  - intros m d n d' -> H1 Hn H2. cbn [bind]. rewrite H1. cbn [bind].
    rewrite Hn. cbn [bind]. rewrite H2. reflexivity.
  - intros e H.
    destruct (search false re_date_range meet) as [m|] eqn:Em; cbn [bind] in H.
    + destruct (strptime_dmy (group m 1)) as [d|e1] eqn:Ed; cbn [bind] in H.
      * destruct (night_of_cases prog) as [[n Hn] | [Hn Hm2]].
        -- rewrite Hn in H. cbn [bind] in H.
           destruct (add_days d (n - 1)) as [d'|e2] eqn:Ea; cbn [bind] in H;
             [discriminate|].
           injection H as <-. pose proof (add_days_raises _ _ _ Ea) as ->.
           right. right. split; [reflexivity|]. exists m, d, n. auto.
        -- rewrite Hn in H. cbn [bind] in H. injection H as <-.
           right. left. auto.
      * injection H as <-. pose proof (strptime_raises _ _ Ed) as ->.
        left. split; [reflexivity|]. exists m. auto.
    + destruct (night_of_cases prog) as [[n Hn] | [Hn Hm2]];
        rewrite Hn in H; cbn [bind] in H; [discriminate|].
      injection H as <-. right. left. auto.
Qed.

Lemma title_inference_outcomes_witness :
  (forallb Py.isascii [s "State Age Finals"] = true /\
   search false re_date_range (s "State Age Finals") = None /\
   infer_day_title [s "State Age Finals"] = Ok (s "Day 1 Heats - ")) /\
  (search true re_night [] = None /\ night_of [] = Ok 1%Z) /\
  infer_day_title [s "Finals - 12/01/2024 to 15/01/2024"; s "Program - Night Two"]
  = Ok (s "Day 2 Heats - 13/01/2024") /\
  (infer_day_title [s "Finals - 31/02/2024 to 02/03/2024"] = Raise ValueError /\
   exists m, search false re_date_range (s "Finals - 31/02/2024 to 02/03/2024")
             = Some m /\ strptime_dmy (group m 1) = Raise ValueError).
Proof.
  split; [|split; [|split]].
  - split; [reflexivity|]. split; [reflexivity|].
    destruct (proj1 (title_inference_outcomes [s "State Age Finals"] eq_refl)
                eq_refl ltac:(vm_compute; discriminate)) as (n & Hn & Ht).
    vm_compute in Hn. injection Hn as <-. exact Ht.
  - split; [reflexivity|].
    apply (proj1 (proj2 (proj2 (title_inference_outcomes [s "State Age Finals"]
                                  eq_refl)))).
    reflexivity.
  - set (m := RMatch (s "Finals ") (s "- 12/01/2024 to 15/01/2024") []
                     [(2%nat, s "15/01/2024"); (1%nat, s "12/01/2024")]).
    apply (proj1 (proj2 (proj2 (proj2 (title_inference_outcomes
             [s "Finals - 12/01/2024 to 15/01/2024"; s "Program - Night Two"]
             eq_refl))))
           m (Date 2024 1 12) 2%Z (Date 2024 1 13)); vm_compute; reflexivity.
  - assert (H : infer_day_title [s "Finals - 31/02/2024 to 02/03/2024"]
                = Raise ValueError) by (vm_compute; reflexivity).
    split; [exact H|].
    destruct (proj2 (proj2 (proj2 (proj2 (title_inference_outcomes
                [s "Finals - 31/02/2024 to 02/03/2024"] eq_refl)))) ValueError H)
      as [(_ & m & Hm & Hr) | [(_ & m2 & Hm2 & _) | (He & _)]].
    + exists m. auto.
    + exfalso. vm_compute in Hm2. discriminate.
    + discriminate.
Defined.

(** C2, as the specification words it, fails: the meet line
    ["Finals - 31/02/2024 to 02/03/2024"] matches the date pattern, 31
    February is no date, and the title computation raises; so does a night
    number that moves the date past the year 9999, and so does a night
    token of 4301 digits, whatever the meet line. *)
Lemma title_inference_counterexample :
  infer_day_title [s "Finals - 31/02/2024 to 02/03/2024"; s "Program - Night One"]
  = Raise ValueError /\
  infer_day_title [s "Finals - 30/12/9999 to 31/12/9999"; s "Program - Night 3"]
  = Raise OverflowError /\
  infer_day_title [s "State Age Finals";
                   s "Night " ++ repeat "1"%char (Z.to_nat 4301)]
  = Raise ValueError /\
  parse_pdf [s "Finals - 31/02/2024 to 02/03/2024"] = Raise ValueError.
Proof.
  split; [vm_compute; reflexivity|]. split; [vm_compute; reflexivity|].
  split; [reflexivity | vm_compute; reflexivity].
Qed.

(* ===================================================================== *)
(** ** Heat labels *)
(* ===================================================================== *)

Lemma tidy_app a : forall b, tidy (a ++ b) = true -> tidy a = true /\ tidy b = true.
Proof.
  induction a as [|c a IH]; intros b H; simpl in *; auto.
  apply andb_true_iff in H as [Hc H]. apply IH in H as [Ha Hb].
  rewrite Ha. split; auto. rewrite andb_true_r.
  destruct (Py.is_space c); auto.
  apply andb_true_iff in Hc as [-> Hh]. simpl.
  destruct a; auto.
Qed.

Lemma tidy_nosp_app t x : nosp t = true -> tidy (t ++ x) = tidy x.
Proof.
  induction t as [|c t IH]; simpl; auto. intros H.
  apply andb_true_iff in H as [Hc Ht]. apply negb_true_iff in Hc.
  now rewrite Hc, IH.
Qed.

Lemma tidy_join ts : Forall token ts -> tidy (Py.join (s " ") ts) = true.
Proof.
  induction 1 as [|t ts [_ Ht] Hts IH]; [reflexivity|].
  destruct ts as [|t' ts].
  - simpl. rewrite <- (app_nil_r t). now rewrite tidy_nosp_app.
  - change (Py.join (s " ") (t :: t' :: ts))
      with (t ++ " "%char :: Py.join (s " ") (t' :: ts)).
    rewrite tidy_nosp_app by auto.
    change (tidy (" "%char :: Py.join (s " ") (t' :: ts)))
      with (negb (headp Py.is_space (Py.join (s " ") (t' :: ts))) &&
            tidy (Py.join (s " ") (t' :: ts))).
    rewrite (join_tokens_head (t' :: ts)) by auto. exact IH.
Qed.

(** A tidy text without whitespace at its ends is its tokens joined by
    single spaces. *)
Lemma tidy_canon x :
  tidy x = true -> headp Py.is_space x = false ->
  headp Py.is_space (rev x) = false ->
  x = Py.join (s " ") (Py.split x).
Proof.
  induction x as [x IH] using (induction_ltof1 _ (@length ascii)).
  unfold ltof in IH. intros Ht Hh Hl.
  destruct x as [|a x]; [reflexivity|].
  destruct (first_token (a :: x) ltac:(discriminate) Hh)
    as (t & r & Hx & Htok & Hr & Hs).
  rewrite Hs. destruct r as [|c r].
  - rewrite app_nil_r in Hx. rewrite Hx. reflexivity.
  - simpl in Hr. apply negb_false_iff in Hr.
    rewrite Hx in Ht. apply tidy_app in Ht as [_ Ht]. simpl in Ht.
    rewrite Hr in Ht. apply andb_true_iff in Ht as [Hc Htr].
    apply andb_true_iff in Hc as [Hc Hhr]. apply negb_true_iff in Hhr.
    apply eqb_char_eq in Hc. subst c.
    destruct r as [|b r].
    { exfalso. rewrite Hx in Hl. rewrite headp_rev_app in Hl by discriminate.
      simpl in Hl. discriminate. }
    assert (Hlr : headp Py.is_space (rev (b :: r)) = false).
    { rewrite Hx in Hl. change (t ++ " "%char :: b :: r)
        with (t ++ [" "%char] ++ b :: r) in Hl.
      rewrite app_assoc in Hl. now rewrite headp_rev_app in Hl by discriminate. }
    assert (E : b :: r = Py.join (s " ") (Py.split (b :: r))).
    { apply IH; auto. rewrite Hx, length_app. simpl. lia. }
    change (" "%char :: b :: r) with ([" "%char] ++ b :: r).
    rewrite split_allsp by reflexivity.
    rewrite Hx at 1.
    destruct (Py.split (b :: r)) as [|t1 ts]; [discriminate|].
    change (Py.join (s " ") (t :: t1 :: ts))
      with (t ++ [" "%char] ++ Py.join (s " ") (t1 :: ts)).
    now rewrite <- E.
Qed.

Lemma canon_join_split x : 
  Py.join (s " ") (Py.split (Py.join (s " ") (Py.split x)))
  = Py.join (s " ") (Py.split x).
Proof. now rewrite split_join by apply split_tokens. Qed.

(** Stripping a piece cut from the front of a canonical text gives a
    canonical text. *)
Lemma strip_prefix_canon (f : ascii -> bool) x :
  let z := Py.strip (Py.rstrip_by f (Py.join (s " ") (Py.split x))) in
  z = Py.join (s " ") (Py.split z).
Proof.
  intros z. apply tidy_canon; [|apply strip_head|apply strip_last].
  destruct (strip_span (Py.rstrip_by f (Py.join (s " ") (Py.split x))))
    as (w0 & w1 & Hz & _). fold z in Hz.
  destruct (rstrip_span f (Py.join (s " ") (Py.split x))) as (w2 & Hj & _).
  pose proof (tidy_join (Py.split x) (split_tokens x)) as Ht.
  rewrite Hj in Ht. apply tidy_app in Ht as [Ht _].
  rewrite Hz in Ht. apply tidy_app in Ht as [_ Ht].
  now apply tidy_app in Ht as [Ht _].
Qed.

(** Without a match anywhere, [re.sub] returns its subject. *)
Lemma sub_no_match ic r repl q : forall p,
  search_go ic r p q = None -> sub_go ic r repl 0 p q = q.
Proof.
  induction q as [|c q IH]; intros p H; simpl in *.
  - destruct (match_at ic r p []); [discriminate | reflexivity].
  - destruct (match_at ic r p (c :: q)); [discriminate|].
    now rewrite IH.
Qed.

(** Without an occurrence, [str.replace] returns its subject. *)
Lemma replace_absent old new x :
  Py.contains old x = false -> Py.replace old new x = x.
Proof.
  unfold Py.replace. induction x as [|c x IH]; intros H; [reflexivity|].
  cbn [Py.contains] in H. apply orb_false_iff in H as [H1 H2].
  cbn [Py.replace_go]. rewrite H1, IH by auto. reflexivity.
Qed.

(** A pattern anchored with [^] matches at the start only. *)
Lemma match_at_bol_later ic r p q :
  p <> [] -> match_at ic (Seq Bol r) p q = None.
Proof. intros H. unfold match_at. simpl. destruct p; [contradiction | reflexivity]. Qed.

Lemma sub_bol_later ic r repl q : forall p,
  p <> [] -> sub_go ic (Seq Bol r) repl 0 p q = q.
Proof.
  induction q as [|c q IH]; intros p H; simpl.
  - now rewrite match_at_bol_later.
  - rewrite match_at_bol_later by auto. now rewrite IH.
Qed.

Lemma bare_age_later repl q p :
  p <> [] -> sub_go false re_bare_age repl 0 p q = q.
Proof.
  apply (sub_bol_later false
           (cat [Grp 1 (plus CNotSpace); plus CSpace; upto CDigit 1 2; Eol])).
Qed.

Lemma cs_notspace w :
  forallb (cs_match false CNotSpace) w = true -> nosp w = true.
Proof.
  unfold nosp. induction w as [|c w IH]; simpl; auto. intros H.
  apply andb_true_iff in H as [Hc Hw]. rewrite cs_match_false_base in Hc.
  simpl in Hc. now rewrite Hc, IH.
Qed.

Lemma at_eol_allsp q : at_eol q = true -> allsp q = true.
Proof.
  destruct q as [|c [|d q]]; simpl; try discriminate; auto.
  intros H. apply newline_is_space in H. now rewrite H.
Qed.

(** The last substitution of [clean_heat_label]: either nothing changes,
    or the label was a token followed by a bare age and the token alone
    remains. *)
Lemma bare_age_sub u :
  (match_at false re_bare_age [] u = None /\
   sub false re_bare_age [RRef 1] u = u) \/
  exists g, token g /\ Py.strip (sub false re_bare_age [RRef 1] u) = g.
Proof.
  unfold sub. destruct u as [|c u]; [left; split; reflexivity|].
  change (sub_go false re_bare_age [RRef 1] 0 [] (c :: u)) with
    (match match_at false re_bare_age [] (c :: u) with
     | Some m => expand [RRef 1] m ++
         match length (m_text m) with
         | O => c :: sub_go false re_bare_age [RRef 1] 0 [c] u
         | S n => sub_go false re_bare_age [RRef 1] n [c] u
         end
     | None => c :: sub_go false re_bare_age [RRef 1] 0 [c] u
     end).
  destruct (match_at false re_bare_age [] (c :: u)) as [m|] eqn:E.
  - right. apply match_at_sound in E as (st' & w & Hd & Hq & Hp & ->).
    cbn [den re_bare_age cat plus upto] in Hd.
    destruct Hd as (st0 & [_ ->] & st1 & (st2 & Hg & ->) & st3 & Hws & st4 &
                    Hds & Heol & ->).
    destruct Hg as (g & Hs0 & Hp0 & Hc0 & Hg & Hl0 & _).
    destruct Hws as (ws & Hs1 & Hp1 & Hc1 & Hws & Hl1 & _).
    destruct Hds as (ds & Hs2 & Hp2 & Hc2 & _).
    cbn [pre suf caps] in *.
    exists g. split.
    { split; [now apply nonempty_length | now apply cs_notspace]. }
    assert (Hgrp : expand [RRef 1] (RMatch (rev []) w (suf st4) (caps st4)) = g).
    { unfold expand, group. cbn [flat_map m_caps]. rewrite Hc2, Hc1.
      cbn [lookup_cap Nat.eqb]. rewrite Hp0, consumed_app. apply app_nil_r. }
    rewrite Hgrp. cbn [m_text].
    destruct w as [|c' w].
    { exfalso. simpl in Hp. rewrite Hp2, Hp1, Hp0 in Hp.
      destruct g; [simpl in Hl0; lia|]. apply (f_equal (@length ascii)) in Hp.
      rewrite !length_app in Hp. simpl in Hp. rewrite length_app in Hp.
      simpl in Hp. lia. }
    injection Hq as <- ->. cbn [length].
    rewrite sub_go_skip.
    rewrite bare_age_later by (destruct (rev w); discriminate).
    rewrite <- (app_nil_l (g ++ suf st4)).
    apply strip_pad; auto using at_eol_allsp.
    + apply token_head. split; [now apply nonempty_length | now apply cs_notspace].
    + apply token_last. split; [now apply nonempty_length | now apply cs_notspace].
  - left. split; [reflexivity|]. now rewrite bare_age_later by discriminate.
Qed.

(** Every cleaned label is canonical: its tokens joined by single
    spaces. *)
Lemma clean_heat_label_canon label :
  clean_heat_label label
  = Py.join (s " ") (Py.split (clean_heat_label label)).
Proof.
  unfold clean_heat_label.
  set (v := fold_left _ patterns _).
  rewrite strip_squeeze.
  destruct (bare_age_sub (Py.strip (Py.rstrip_chars (s "- ")
              (Py.join (s " ") (Py.split v))))) as [[_ ->] | (g & Hg & ->)].
  - rewrite strip_idem. apply strip_prefix_canon.
  - now rewrite split_tok.
Qed.

Lemma search_bol_later ic r q : forall p,
  p <> [] -> search_go ic (Seq Bol r) p q = None.
Proof.
  induction q as [|c q IH]; intros p H; simpl.
  - now rewrite match_at_bol_later.
  - rewrite match_at_bol_later by auto. now apply IH.
Qed.

Lemma search_bare_age_start u :
  match_at false re_bare_age [] u = None -> search false re_bare_age u = None.
Proof.
  intros H. unfold search. destruct u as [|c u]; cbn [search_go]; rewrite H; auto.
  apply (search_bol_later false
           (cat [Grp 1 (plus CNotSpace); plus CSpace; upto CDigit 1 2; Eol])).
  discriminate.
Qed.

Lemma nosp_app_space a c b : Py.is_space c = true -> nosp (a ++ c :: b) = false.
Proof.
  intros H. unfold nosp. rewrite forallb_app. simpl. rewrite H. simpl.
  apply andb_false_r.
Qed.

(** A single token is not a heat id followed by a bare age. *)
Lemma token_no_bare_age g :
  token g -> match_at false re_bare_age [] g = None.
Proof.
  intros [_ Hg]. destruct (match_at false re_bare_age [] g) as [m|] eqn:E; auto.
  exfalso. apply match_at_sound in E as (st' & w & Hd & _).
  cbn [den re_bare_age cat plus upto] in Hd.
  destruct Hd as (st0 & [_ ->] & st1 & (st2 & Hg1 & ->) & st3 & Hws & _).
  destruct Hg1 as (g1 & Hs0 & _).
  destruct Hws as (ws & Hs1 & _ & _ & Hws & Hl1 & _).
  cbn [pre suf caps] in *. rewrite Hs1 in Hs0.
  destruct ws as [|c ws]; [simpl in Hl1; lia|].
  simpl in Hws. apply andb_true_iff in Hws as [Hc _].
  rewrite cs_match_false_base in Hc. simpl in Hc.
  rewrite Hs0 in Hg. simpl in Hg. rewrite nosp_app_space in Hg by auto.
  discriminate.
Qed.

(** A cleaned label is never a heat id followed by a bare age. *)
Lemma clean_heat_label_no_bare_age label :
  search false re_bare_age (clean_heat_label label) = None.
Proof.
  unfold clean_heat_label.
  set (v := fold_left _ patterns _).
  destruct (bare_age_sub (Py.strip (Py.rstrip_chars (s "- ") (Py.strip (squeeze v)))))
    as [[Hm ->] | (g & Hg & ->)].
  - rewrite strip_idem. now apply search_bare_age_start.
  - now apply search_bare_age_start, token_no_bare_age.
Qed.

Lemma fold_sub_id ic (pats : list regex) : forall x,
  Forall (fun pat => search ic pat x = None) pats ->
  fold_left (fun acc pat => sub ic pat [] acc) pats x = x.
Proof.
  induction pats as [|pat pats IH]; intros x H; simpl; auto.
  inversion H as [|? ? Hp Hps]; subst.
  unfold sub at 2. rewrite sub_no_match by exact Hp. now apply IH.
Qed.

(** C3, as the code has it.  Cleaning a cleaned label returns it unchanged
    whenever the cleaned label is stable: no age phrase of the list
    matches in it any more, it does not end with a hyphen or a space, and
    it holds no Unicode dash (no text of ASCII characters does).  Every
    cleaned label is already free of surplus whitespace and of a trailing
    bare age. *)
Theorem clean_heat_label_idempotent_when_stable (label : str) :
  let t := clean_heat_label label in
  Py.contains en_dash t = false ->
  Py.contains em_dash t = false ->
  Forall (fun pat => search true pat t = None) patterns ->
  Py.rstrip_chars (s "- ") t = t ->
  clean_heat_label t = t.
Proof.
  intros t Hen Hem Hpat Hsep.
  pose proof (clean_heat_label_canon label) as Hcanon. fold t in Hcanon.
  pose proof (clean_heat_label_no_bare_age label) as Hage. fold t in Hage.
  assert (Hstrip : Py.strip t = t).
  { rewrite Hcanon. apply strip_join, split_tokens. }
  unfold clean_heat_label.
  rewrite squeeze_strip, <- Hcanon.
  rewrite (replace_absent en_dash) by exact Hen.
  rewrite (replace_absent em_dash) by exact Hem.
  rewrite fold_sub_id by exact Hpat.
  rewrite strip_squeeze, <- Hcanon, Hsep, Hstrip.
  unfold sub. rewrite sub_no_match by exact Hage. exact Hstrip.
Qed.

Lemma clean_heat_label_idempotent_when_stable_witness :
  clean_heat_label (s "1b 15 Year Olds") = s "1b" /\
  Py.contains en_dash (s "1b") = false /\
  Py.contains em_dash (s "1b") = false /\
  Forall (fun pat => search true pat (s "1b") = None) patterns /\
  Py.rstrip_chars (s "- ") (s "1b") = s "1b" /\
  clean_heat_label (s "1b") = s "1b".
Proof.
  assert (E : clean_heat_label (s "1b 15 Year Olds") = s "1b")
    by (vm_compute; reflexivity).
  split; [exact E|]. split; [reflexivity|]. split; [reflexivity|].
  split; [repeat constructor|]. split; [reflexivity|].
  rewrite <- E.
  apply (clean_heat_label_idempotent_when_stable (s "1b 15 Year Olds"));
    rewrite E; try reflexivity.
  repeat constructor.
Defined.

(** C3, as the specification words it, fails: cleaning ["a- 1"] drops the
    bare age and leaves ["a-"], and cleaning ["a-"] then strips the hyphen;
    cleaning ["12 Years 5 Year Old Old"] leaves ["12 Years Old"], which a
    second cleaning removes altogether. *)
Lemma clean_heat_label_idempotence_counterexample :
  clean_heat_label (s "a- 1") = s "a-" /\
  clean_heat_label (clean_heat_label (s "a- 1")) = s "a" /\
  clean_heat_label (clean_heat_label (s "a- 1")) <> clean_heat_label (s "a- 1") /\
  clean_heat_label (s "12 Years 5 Year Old Old") = s "12 Years Old" /\
  clean_heat_label (clean_heat_label (s "12 Years 5 Year Old Old")) = [].
Proof.
  repeat split; try (vm_compute; reflexivity).
  vm_compute. discriminate.
Qed.

(* ===================================================================== *)
(** ** More on the state machine *)
(* ===================================================================== *)

Lemma parse_event_header_strip raw :
  parse_event_header (Py.strip raw) = parse_event_header raw.
Proof. unfold parse_event_header. now rewrite strip_idem. Qed.

Lemma parse_heat_label_strip raw :
  parse_heat_label (Py.strip raw) = parse_heat_label raw.
Proof. unfold parse_heat_label. now rewrite strip_idem. Qed.

Lemma step_strip cap st raw : step cap st (Py.strip raw) = step cap st raw.
Proof. unfold step. rewrite !strip_idem. reflexivity. Qed.

Lemma step_blank cap st raw : Py.strip raw = [] -> step cap st raw = st.
Proof. intros H. unfold step. rewrite H. reflexivity. Qed.

Lemma fold_step_nonblank cap lines : forall st,
  fold_left (step cap) lines st
  = fold_left (step cap) (List.filter nonblank (map Py.strip lines)) st.
Proof.
  induction lines as [|l lines IH]; intros st; [reflexivity|].
  cbn [map List.filter fold_left]. unfold nonblank at 1. rewrite strip_idem.
  destruct (Py.strip l) as [|c l'] eqn:E.
  - rewrite step_blank by exact E. apply IH.
  - cbn [fold_left]. rewrite <- E, step_strip. apply IH.
Qed.

(** X1.  Indentation and blank lines do not matter: the state machine
    builds the same document from the lines as from the stripped lines
    with the blank ones removed. *)
Theorem parse_lines_ignores_blank_and_indent (cap : option nat) (lines : list str) :
  parse_lines cap lines
  = parse_lines cap (List.filter nonblank (map Py.strip lines)).
Proof. unfold parse_lines. now rewrite fold_step_nonblank. Qed.

(** The seven things a turn of the loop can do. *)
Lemma step_cases cap st raw :
  let line := Py.strip raw in
  (parse_event_header line = None /\ step cap st raw = st) \/
  (exists n g c a,
     parse_event_header line = Some (n, g, c, a) /\
     step cap st raw =
     mkState (all_events st) (alternates st) (Some (mkEvent n g c a []))
             None false []) \/
  (exists ev,
     current_event st = Some ev /\ parse_event_header line = None /\
     Py.startswith (s "alternates") (Py.lower line) = true /\
     step cap st raw =
     mkState (events st) (alternates st) (Some ev) (current_heat st) true
             (squeeze (Py.strip line))) \/
  (exists ev l n,
     current_event st = Some ev /\ parse_event_header line = None /\
     parse_heat_label line = Some l /\
     cap = Some n /\ (n <= length (heats ev))%nat /\
     step cap st raw =
     mkState (events st) (alternates st) (Some ev) None false []) \/
  (exists ev l,
     current_event st = Some ev /\ parse_event_header line = None /\
     parse_heat_label line = Some l /\
     match cap with Some n => (length (heats ev) < n)%nat | None => True end /\
     step cap st raw =
     mkState (events st) (alternates st)
             (Some (with_heats ev (heats ev ++ [mkHeat line l ∅])))
             (Some (length (heats ev))) false []) \/
  (exists ev row h,
     current_event st = Some ev /\ in_alternates st = true /\
     parse_event_header line = None /\ parse_heat_label line = None /\
     parse_alternate_line line = Some row /\ last (heats ev) = Some h /\
     step cap st raw =
     mkState (events st)
             (alternates st ++ [make_alternate ev h (current_alt_group st) row])
             (Some ev) (current_heat st) true (current_alt_group st)) \/
  (exists ev lane nm i,
     current_event st = Some ev /\ in_alternates st = false /\
     parse_event_header line = None /\ parse_heat_label line = None /\
     parse_lane_line line = Some (lane, nm) /\ current_heat st = Some i /\
     step cap st raw =
     mkState (events st) (alternates st)
             (Some (with_heats ev (alter (set_lane lane nm) i (heats ev))))
             (Some i) false (current_alt_group st)).
Proof.
  intros line. unfold step. fold line.
  destruct line as [|c0 l0] eqn:El; [left; split; reflexivity|].
  destruct (parse_event_header (c0 :: l0)) as [[[[n g] c] a]|] eqn:Eh.
  { right. left. exists n, g, c, a. split; [reflexivity|].
    unfold all_events. destruct (current_event st); simpl;
      [reflexivity | now rewrite app_nil_r]. }
  destruct (current_event st) as [ev|] eqn:Ec; [|auto].
  destruct (is_boilerplate (c0 :: l0)); [auto|].
  destruct (Py.startswith (s "alternates") (Py.lower (c0 :: l0))) eqn:Ea.
  { right. right. left. exists ev. auto. }
  destruct (parse_heat_label (c0 :: l0)) as [l|] eqn:Ehl.
  { destruct cap as [n|].
    - destruct (n <=? length (heats ev))%nat eqn:En.
      + apply Nat.leb_le in En. do 3 right. left. exists ev, l, n. auto 10.
      + apply Nat.leb_gt in En. do 4 right. left. exists ev, l. auto 10.
    - do 4 right. left. exists ev, l. auto 10. }
  destruct (in_alternates st) eqn:Ei.
  - destruct (parse_alternate_line (c0 :: l0)) as [row|] eqn:Er; [|auto].
    destruct (last (heats ev)) as [h|] eqn:Eh'; [|auto].
    do 5 right. left. exists ev, row, h. auto 10.
  - destruct (parse_lane_line (c0 :: l0)) as [[lane nm]|] eqn:Er; [|auto].
    destruct (current_heat st) as [i|] eqn:Ei'; [|auto].
    do 6 right. exists ev, lane, nm, i. auto 10.
Qed.

Lemma step_keys cap st raw :
  map event_key (all_events (step cap st raw))
  = map event_key (all_events st) ++ option_list (parse_event_header raw).
Proof.
  rewrite <- parse_event_header_strip.
  destruct (step_cases cap st raw)
    as [[Hh ->] | [(n & g & c & a & Hh & ->) | [(ev & Hc & Hh & _ & ->) |
       [(ev & l & n & Hc & Hh & _ & _ & _ & ->) |
       [(ev & l & Hc & Hh & _ & _ & ->) |
       [(ev & row & h & Hc & _ & Hh & _ & _ & _ & ->) |
        (ev & lane & nm & i & Hc & _ & Hh & _ & _ & _ & ->)]]]]]];
    rewrite Hh; unfold all_events; simpl; rewrite ?Hc, ?app_nil_r;
    try reflexivity.
  - now rewrite map_app.
  - rewrite !map_app. reflexivity.
  - rewrite !map_app. reflexivity.
Qed.

Lemma fold_step_keys cap lines : forall st,
  map event_key (all_events (fold_left (step cap) lines st))
  = map event_key (all_events st) ++ omap parse_event_header lines.
Proof.
  induction lines as [|l lines IH]; intros st; simpl.
  - now rewrite app_nil_r.
  - rewrite IH, step_keys, <- app_assoc. f_equal.
    destruct (parse_event_header l); reflexivity.
Qed.

(** X2.  The events of a document are exactly its event-header lines, in
    order: each recognised header gives one event with the number, gender,
    event code and age group extracted from it, and no other line creates
    or changes an event's fields. *)
Theorem events_are_the_header_lines (cap : option nat) (lines : list str) :
  map event_key (fst (parse_lines cap lines)) = omap parse_event_header lines.
Proof.
  pose proof (fold_step_keys cap lines init_state) as H.
  unfold parse_lines. cbn [fst]. unfold all_events in H.
  destruct (current_event _); simpl in *; rewrite ?app_nil_r in H; exact H.
Qed.

(** Lines before the first event header change nothing. *)
Lemma step_no_event cap st raw :
  current_event st = None -> parse_event_header raw = None ->
  step cap st raw = st.
Proof.
  intros Hc Hh. rewrite <- parse_event_header_strip in Hh.
  destruct (step_cases cap st raw)
    as [[_ ->] | [(n & g & c & a & Hh' & _) | [(ev & Hc' & _) |
       [(ev & l & n & Hc' & _) | [(ev & l & Hc' & _) |
       [(ev & row & h & Hc' & _) | (ev & lane & nm & i & Hc' & _)]]]]]];
    congruence.
Qed.

(** X3.  Whatever comes before the first event header is dropped: lines
    none of which is an event header, put in front of a document, do not
    change what is parsed. *)
Theorem lines_before_first_event_are_dropped (cap : option nat)
    (before rest : list str) :
  Forall (fun l => parse_event_header l = None) before ->
  parse_lines cap (before ++ rest) = parse_lines cap rest.
Proof.
  intros H. unfold parse_lines. rewrite fold_left_app.
  replace (fold_left (step cap) before init_state) with init_state; [reflexivity|].
  induction H as [|l ls Hl _ IH]; [reflexivity|].
  simpl. now rewrite step_no_event.
Qed.

Lemma lines_before_first_event_are_dropped_witness :
  Forall (fun l => parse_event_header l = None)
         [s "State Age Finals - 12/01/2024 to 15/01/2024"; s "3 Smith, Jane 14 NT";
          s "Heat 1"] /\
  parse_lines None
    ([s "State Age Finals - 12/01/2024 to 15/01/2024"; s "3 Smith, Jane 14 NT";
      s "Heat 1"] ++ [s "Event 2 Boys 12-13 200 LC Meter IM"])
  = parse_lines None [s "Event 2 Boys 12-13 200 LC Meter IM"].
Proof.
  assert (H : Forall (fun l => parse_event_header l = None)
                [s "State Age Finals - 12/01/2024 to 15/01/2024";
                 s "3 Smith, Jane 14 NT"; s "Heat 1"])
    by (repeat constructor).
  split; [exact H|].
  apply (lines_before_first_event_are_dropped None _ _ H).
Defined.

(** An invariant of the events: it holds of a fresh event, and adding a
    heat or writing a lane keeps it. *)
Lemma events_invariant (P : Event -> Prop) (cap : option nat) :
  (forall line n g c a,
     parse_event_header line = Some (n, g, c, a) -> P (mkEvent n g c a [])) ->
  (forall line ev l,
     P ev -> parse_heat_label line = Some l -> Py.strip line = line ->
     match cap with Some n => (length (heats ev) < n)%nat | None => True end ->
     P (with_heats ev (heats ev ++ [mkHeat line l ∅]))) ->
  (forall line ev lane nm i,
     P ev -> parse_lane_line line = Some (lane, nm) ->
     P (with_heats ev (alter (set_lane lane nm) i (heats ev)))) ->
  forall lines, Forall P (fst (parse_lines cap lines)).
Proof.
  intros Hnew Hheat Hlane lines.
  assert (Hstep : forall st raw,
            Forall P (all_events st) -> Forall P (all_events (step cap st raw))).
  { intros st raw Hst. unfold all_events in Hst.
    apply Forall_app in Hst as [Hev Hcur].
    assert (Hcur' : forall ev, current_event st = Some ev -> P ev).
    { intros ev Hc. rewrite Hc in Hcur. simpl in Hcur.
      now rewrite Forall_singleton in Hcur. }
    assert (Hall : forall ev', current_event st = Some ev' ->
              Forall P (events st ++ [ev'])).
    { intros ev' Hc. apply Forall_app. split; [exact Hev|].
      apply Forall_singleton. auto. }
    destruct (step_cases cap st raw)
      as [[_ ->] | [(n & g & c & a & Hh & ->) | [(ev & Hc & _ & _ & ->) |
         [(ev & l & n & Hc & _ & _ & _ & _ & ->) |
         [(ev & l & Hc & _ & Hl & Hcap & ->) |
         [(ev & row & h & Hc & _ & _ & _ & _ & _ & ->) |
          (ev & lane & nm & i & Hc & _ & _ & _ & Hl & _ & ->)]]]]]];
      unfold all_events; cbn [events current_event option_list].
    - apply Forall_app. auto.
    - apply Forall_app. split.
      + apply Forall_app. auto.
      + apply Forall_singleton. eauto.
    - exact (Hall ev Hc).
    - exact (Hall ev Hc).
    - apply Forall_app. split; [exact Hev|]. apply Forall_singleton.
      eapply Hheat; eauto. apply strip_idem.
    - exact (Hall ev Hc).
    - apply Forall_app. split; [exact Hev|]. apply Forall_singleton.
      eapply Hlane; eauto. }
  assert (Hfold : forall ls st,
            Forall P (all_events st) ->
            Forall P (all_events (fold_left (step cap) ls st))).
  { induction ls as [|l ls IH]; intros st Hst; simpl; auto. }
  specialize (Hfold lines init_state (Forall_nil_2 _)).
  unfold parse_lines. cbn [fst]. unfold all_events in Hfold.
  destruct (current_event _); simpl in *; rewrite ?app_nil_r in Hfold;
    exact Hfold.
Qed.

(** X4.  The heat cap: with [MAX_HEATS_PER_EVENT] set to [n], no event of
    a document keeps more than [n] heats. *)
Theorem heat_cap_bounds_every_event (n : nat) (lines : list str) :
  Forall (fun ev => (length (heats ev) <= n)%nat) (fst (parse_lines (Some n) lines)).
Proof.
  apply events_invariant.
  - intros. simpl. lia.
  - intros line ev l H _ _ Hlt. simpl. rewrite length_app. simpl. lia.
  - intros line ev lane nm i H _. simpl. now rewrite length_alter.
Qed.

Lemma step_in_alternates cap st raw :
  in_alternates st = true ->
  parse_event_header raw = None -> parse_heat_label raw = None ->
  events (step cap st raw) = events st /\
  current_event (step cap st raw) = current_event st /\
  current_heat (step cap st raw) = current_heat st /\
  in_alternates (step cap st raw) = true.
Proof.
  intros Hin Hh Hl.
  rewrite <- parse_event_header_strip in Hh.
  rewrite <- parse_heat_label_strip in Hl.
  destruct (step_cases cap st raw)
    as [[_ ->] | [(n & g & c & a & Hh' & _) | [(ev & Hc & _ & _ & ->) |
       [(ev & l & n & _ & _ & Hl' & _) | [(ev & l & _ & _ & Hl' & _) |
       [(ev & row & h & Hc & _ & _ & _ & _ & _ & ->) |
        (ev & lane & nm & i & _ & Hin' & _)]]]]]];
    try congruence; auto.
Qed.

(** X5.  The heats exclude the alternates: from an alternates heading up
    to the next heat or event header, no line changes an event, a heat or
    a lane, whatever the line looks like. *)
Theorem alternates_block_leaves_heats (cap : option nat) (st : pstate)
    (block : list str) :
  in_alternates st = true ->
  Forall (fun l => parse_event_header l = None /\ parse_heat_label l = None) block ->
  events (fold_left (step cap) block st) = events st /\
  current_event (fold_left (step cap) block st) = current_event st /\
  current_heat (fold_left (step cap) block st) = current_heat st /\
  in_alternates (fold_left (step cap) block st) = true.
Proof.
  intros Hin H. revert st Hin.
  induction H as [|l ls [Hh Hl] _ IH]; intros st Hin; [auto|].
  destruct (step_in_alternates cap st l Hin Hh Hl) as (E1 & E2 & E3 & E4).
  simpl. destruct (IH _ E4) as (F1 & F2 & F3 & F4).
  rewrite F1, F2, F3, F4. auto.
Qed.

Lemma alternates_block_leaves_heats_witness :
  in_alternates demo_state = true /\
  Forall (fun l => parse_event_header l = None /\ parse_heat_label l = None)
         [s "1 Shumack, Heidi 16 Sopac 26.25"; s "3 Smith, Jane 14 NT";
          s "Alternates 14 & Under"] /\
  current_event
    (fold_left (step None)
       [s "1 Shumack, Heidi 16 Sopac 26.25"; s "3 Smith, Jane 14 NT";
        s "Alternates 14 & Under"] demo_state)
  = current_event demo_state.
Proof.
  assert (H1 : in_alternates demo_state = true) by (vm_compute; reflexivity).
  assert (H2 : Forall (fun l => parse_event_header l = None /\
                                parse_heat_label l = None)
                 [s "1 Shumack, Heidi 16 Sopac 26.25"; s "3 Smith, Jane 14 NT";
                  s "Alternates 14 & Under"])
    by (repeat constructor).
  split; [exact H1|]. split; [exact H2|].
  apply (alternates_block_leaves_heats None demo_state _ H1 H2).
Defined.

Lemma map_label_alter lane nm i hs :
  map label (alter (set_lane lane nm) i hs) = map label hs.
Proof.
  revert i. induction hs as [|h hs IH]; intros [|i]; simpl; auto.
  f_equal. apply IH.
Qed.

Lemma alternate_of_more_heats a ev hs :
  alternate_of a ev -> alternate_of a (with_heats ev (heats ev ++ hs)).
Proof.
  intros (H1 & H2 & H3 & H4 & H5). repeat split; auto. simpl.
  rewrite map_app. apply in_or_app. auto.
Qed.

Lemma alternate_of_lane a ev lane nm i :
  alternate_of a ev ->
  alternate_of a (with_heats ev (alter (set_lane lane nm) i (heats ev))).
Proof.
  intros (H1 & H2 & H3 & H4 & H5). repeat split; auto. simpl.
  now rewrite map_label_alter.
Qed.

Lemma Exists_snoc_impl {A} (P : A -> Prop) (l : list A) (x y : A) :
  (P x -> P y) -> Exists P (l ++ [x]) -> Exists P (l ++ [y]).
Proof.
  intros H E. apply Exists_app in E as [E | E].
  - apply Exists_app. auto.
  - apply Exists_app. right. inversion E as [? ? Hx|? ? Hx]; subst.
    + constructor. auto.
    + inversion Hx.
Qed.

Lemma step_alternates_ok cap st raw :
  Forall (fun a => Exists (alternate_of a) (all_events st)) (alternates st) ->
  Forall (fun a => Exists (alternate_of a) (all_events (step cap st raw)))
         (alternates (step cap st raw)).
Proof.
  intros Hst.
  destruct (step_cases cap st raw)
    as [[_ ->] | [(n & g & c & a & Hh & ->) | [(ev & Hc & _ & _ & ->) |
       [(ev & l & n & Hc & _ & _ & _ & _ & ->) |
       [(ev & l & Hc & _ & Hl & Hcap & ->) |
       [(ev & row & h & Hc & _ & _ & _ & _ & Hlast & ->) |
        (ev & lane & nm & i & Hc & _ & _ & _ & Hl & _ & ->)]]]]]];
    auto; unfold all_events in *; cbn [events alternates current_event] in *;
    try rewrite Hc in Hst; simpl option_list in *; try exact Hst.
  - eapply Forall_impl; [exact Hst|]. intros x Hx. apply Exists_app. auto.
  - eapply Forall_impl; [exact Hst|]. intros x.
    apply Exists_snoc_impl. apply alternate_of_more_heats.
  - apply Forall_app. split; [exact Hst|]. apply Forall_singleton.
    apply Exists_app. right. constructor.
    destruct row as [[[rk nm] tm] pr]. repeat split; auto. simpl.
    apply in_map. apply list_elem_of_In. eapply last_Some_elem_of, Hlast.
  - eapply Forall_impl; [exact Hst|]. intros x.
    apply Exists_snoc_impl. apply alternate_of_lane.
Qed.

(** X6.  Every alternate of a document belongs to one of its events: it
    carries the number, gender, event code and age group of that event and
    the label of one of the heats of that event. *)
Theorem alternates_reference_their_event (cap : option nat) (lines : list str) :
  Forall (fun a => Exists (alternate_of a) (fst (parse_lines cap lines)))
         (snd (parse_lines cap lines)).
Proof.
  assert (H : forall ls st,
            Forall (fun a => Exists (alternate_of a) (all_events st)) (alternates st) ->
            Forall (fun a => Exists (alternate_of a)
                               (all_events (fold_left (step cap) ls st)))
                   (alternates (fold_left (step cap) ls st))).
  { induction ls as [|l ls IH]; intros st Hst; simpl; auto.
    apply IH, step_alternates_ok, Hst. }
  specialize (H lines init_state (Forall_nil_2 _)).
  unfold parse_lines. cbn [fst snd]. unfold all_events in H.
  destruct (current_event _); simpl in *; rewrite ?app_nil_r in H; exact H.
Qed.

(* ===================================================================== *)
(** ** Labels and names of a document *)
(* ===================================================================== *)

Lemma parse_heat_label_clean line l :
  parse_heat_label line = Some l -> exists x, l = clean_heat_label x.
Proof.
  unfold parse_heat_label. destruct (match_ true re_heat _); [|discriminate].
  intros [= <-]. eauto.
Qed.

Lemma new_heat_label_ok line l :
  Py.strip line = line -> parse_heat_label line = Some l ->
  heat_label_ok (mkHeat line l ∅).
Proof.
  intros Hs Hl. pose proof (parse_heat_label_clean _ _ Hl) as [x Hx].
  unfold heat_label_ok. cbn [raw_label label].
  split; [exact Hs|]. split; [exact Hl|]. rewrite Hx. split.
  - apply clean_heat_label_canon.
  - apply clean_heat_label_no_bare_age.
Qed.

(** X7.  Every heat of a document carries, as its raw label, the stripped
    header line it came from, and as its label the cleaned form of that
    line: whitespace-normalised, and never a heat id followed by a bare
    age. *)
Theorem heat_labels_are_cleaned (cap : option nat) (lines : list str) :
  Forall (fun ev => Forall heat_label_ok (heats ev)) (fst (parse_lines cap lines)).
Proof.
  apply events_invariant.
  - intros. constructor.
  - intros line ev l H Hl Hs _. cbn [heats with_heats].
    apply Forall_app. split; [exact H|].
    apply Forall_singleton. now apply new_heat_label_ok.
  - intros line ev lane nm i H _. cbn [heats with_heats].
    apply Forall_alter; [exact H|]. intros h _ Hh. exact Hh.
Qed.

Lemma is_space_upper a : Py.is_space (Py.upper_char a) = Py.is_space a.
Proof. by_char a. Qed.

Lemma eqb_space_upper a :
  Py.eqb_char (Py.upper_char a) " " = Py.eqb_char a " ".
Proof. by_char a. Qed.

Lemma upper_not_lower a : Py.is_lower (Py.upper_char a) = false.
Proof. by_char a. Qed.

Lemma headp_space_upper y :
  headp Py.is_space (Py.upper y) = headp Py.is_space y.
Proof. destruct y; simpl; auto using is_space_upper. Qed.

Lemma tidy_upper y : tidy (Py.upper y) = tidy y.
Proof.
  induction y as [|c y IH]; [reflexivity|].
  change (Py.upper (c :: y)) with (Py.upper_char c :: Py.upper y).
  cbn [tidy]. now rewrite is_space_upper, eqb_space_upper, headp_space_upper, IH.
Qed.

Lemma upper_no_lower y :
  forallb (fun c => negb (Py.is_lower c)) (Py.upper y) = true.
Proof.
  induction y as [|c y IH]; simpl; auto. now rewrite upper_not_lower, IH.
Qed.

(** The upper case of a canonical text is a normalised name. *)
Lemma upper_join_ok ts : Forall token ts -> name_ok (Py.upper (Py.join (s " ") ts)).
Proof.
  intros H. split; [|apply upper_no_lower].
  apply tidy_canon.
  - rewrite tidy_upper. now apply tidy_join.
  - rewrite headp_space_upper. now apply join_tokens_head.
  - unfold Py.upper. rewrite <- map_rev. fold (Py.upper (rev (Py.join (s " ") ts))).
    rewrite headp_space_upper. now apply join_tokens_last.
Qed.

Lemma normalise_name_ok (nm : str) : name_ok (normalise_name nm).
Proof.
  unfold normalise_name.
  match goal with |- name_ok (Py.upper (Py.strip (sub false re_ws _ ?z))) =>
    change (sub false re_ws [RLit (s " ")] z) with (squeeze z) end.
  rewrite strip_squeeze. apply upper_join_ok, split_tokens.
Qed.

(** X8.  [normalise_name] returns a normalised name: whatever the input,
    the result has no lower case letter, no whitespace at its ends, and
    single spaces between its tokens. *)
Theorem normalise_name_is_normalised (nm : str) : name_ok (normalise_name nm).
Proof. apply normalise_name_ok. Qed.

Lemma parse_lane_line_name line lane nm :
  parse_lane_line line = Some (lane, nm) -> name_ok nm.
Proof.
  unfold parse_lane_line. intros H.
  repeat case_match; simplify_eq; apply normalise_name_ok.
Qed.

Lemma find_prelim_team rem : forall seen tm pr,
  Forall token seen -> Forall token rem ->
  find_prelim seen rem = Some (tm, pr) ->
  exists ts, Forall token ts /\ tm = Py.join (s " ") ts.
Proof.
  induction rem as [|tok rem IH]; intros seen tm pr Hseen Hrem H; simpl in H;
    [discriminate|].
  inversion Hrem; subst.
  destruct (matches true re_prelim tok).
  - injection H as <- <-. exists (rev seen).
    assert (Forall token (rev seen)) by now apply Forall_rev.
    split; auto. now apply strip_join.
  - eapply IH; [| |exact H]; auto.
Qed.

Lemma Forall_removelast {A} (P : A -> Prop) (l : list A) :
  Forall P l -> Forall P (List.removelast l).
Proof.
  induction 1 as [|x l Hx Hl IH]; simpl; [constructor|].
  destruct l; [constructor|]. constructor; auto.
Qed.

Lemma parse_alternate_line_names line rk nm tm pr :
  parse_alternate_line line = Some (rk, nm, tm, pr) ->
  name_ok nm /\ name_ok tm.
Proof.
  unfold parse_alternate_line.
  destruct (match_ false re_alt _) as [m|]; [|discriminate].
  set (tokens := Py.split (Py.strip (group m 2))).
  assert (Htok : Forall token tokens) by apply split_tokens.
  destruct (name_run age_like tokens) as [|t0 ts0]; [discriminate|].
  assert (Hnil : name_ok (Py.upper [])) by (split; reflexivity).
  destruct (find_stop age_like 0 tokens) as [i|].
  - assert (Hrem : Forall token (drop (S i) tokens)) by now apply Forall_drop.
    destruct (find_prelim [] (drop (S i) tokens)) as [[tm' pr']|] eqn:Ef.
    + intros [= <- <- <- <-]. split; [apply normalise_name_ok|].
      destruct (find_prelim_team _ _ _ _ (Forall_nil_2 _) Hrem Ef) as (ts & Hts & ->).
      now apply upper_join_ok.
    + destruct (drop (S i) tokens) as [|r0 rs] eqn:Ed.
      * intros [= <- <- <- <-]. split; [apply normalise_name_ok | exact Hnil].
      * assert (Hrl : Forall token (List.removelast (r0 :: rs)))
          by now apply Forall_removelast.
        intros [= <- <- <- <-]. split; [apply normalise_name_ok|].
        change (name_ok (Py.upper (Py.strip
                  (Py.join (s " ") (List.removelast (r0 :: rs)))))).
        rewrite strip_join by exact Hrl. apply upper_join_ok, Hrl.
  - intros [= <- <- <- <-]. split; [apply normalise_name_ok | exact Hnil].
Qed.

(** An invariant of the alternates: it holds of every entry made from an
    extracted row. *)
Lemma alternates_invariant (Q : AlternateEntry -> Prop) (cap : option nat) :
  (forall line ev h grp row,
     parse_alternate_line line = Some row -> Q (make_alternate ev h grp row)) ->
  forall lines, Forall Q (snd (parse_lines cap lines)).
Proof.
  intros HQ lines.
  assert (Hstep : forall st raw,
            Forall Q (alternates st) -> Forall Q (alternates (step cap st raw))).
  { intros st raw Hst.
    destruct (step_cases cap st raw)
      as [[_ ->] | [(n & g & c & a & Hh & ->) | [(ev & Hc & _ & _ & ->) |
         [(ev & l & n & Hc & _ & _ & _ & _ & ->) |
         [(ev & l & Hc & _ & Hl & Hcap & ->) |
         [(ev & row & h & Hc & _ & _ & _ & Hrow & _ & ->) |
          (ev & lane & nm & i & Hc & _ & _ & _ & Hl & _ & ->)]]]]]];
      cbn [alternates]; auto.
    apply Forall_app. split; [exact Hst|]. apply Forall_singleton. eauto. }
  assert (Hfold : forall ls st,
            Forall Q (alternates st) ->
            Forall Q (alternates (fold_left (step cap) ls st))).
  { induction ls as [|l ls IH]; intros st Hst; simpl; auto. }
  exact (Hfold lines init_state (Forall_nil_2 _)).
Qed.

(** X9.  Every swimmer name of a document is normalised: the names in the
    lanes of every heat, and the name and the team of every alternate,
    have no lower case letter and single spaces between their tokens. *)
Theorem document_names_are_normalised (cap : option nat) (lines : list str) :
  Forall (fun ev =>
            Forall (fun h => map_Forall (fun (_ : Z) nm => name_ok nm) (lanes h))
                   (heats ev))
         (fst (parse_lines cap lines)) /\
  Forall (fun a => name_ok (name a) /\ name_ok (team a))
         (snd (parse_lines cap lines)).
Proof.
  split.
  - apply events_invariant.
    + intros. constructor.
    + intros line ev l H _ _ _. cbn [heats with_heats].
      apply Forall_app. split; [exact H|]. apply Forall_singleton.
      apply map_Forall_empty.
    + intros line ev lane nm i H Hl. cbn [heats with_heats].
      apply Forall_alter; [exact H|]. intros h _ Hh.
      unfold set_lane. cbn [lanes]. apply map_Forall_insert_2; [|exact Hh].
      eapply parse_lane_line_name, Hl.
  - apply alternates_invariant.
    intros line ev h grp [[[rk nm] tm] pr] Hrow. cbn [make_alternate name team].
    eapply parse_alternate_line_names, Hrow.
Qed.

(* ===================================================================== *)
(** ** The rows of the tables *)
(* ===================================================================== *)

Lemma heat_row_length ev h : length (heat_row ev h) = 20%nat.
Proof. reflexivity. Qed.

Lemma flat_map_length_sum {A B} (f : A -> list B) (l : list A) :
  length (flat_map f l) = list_sum (map (fun x => length (f x)) l).
Proof.
  induction l as [|x l IH]; simpl; auto. now rewrite length_app, IH.
Qed.

(** X10.  The table of heats has one row per heat of the document, in
    order, and every row is as wide as the header (20 columns); the table
    of alternates has one row per alternate and every row is as wide as
    its header (10 columns). *)
Theorem table_rows_match_headers (evs : list Event) (alts : list AlternateEntry) :
  Forall (fun r => length r = length HEATS_HEADERS) (events_to_rows evs) /\
  length (events_to_rows evs) = list_sum (map (fun ev => length (heats ev)) evs) /\
  Forall (fun r => length r = length ALT_HEADERS) (alternates_to_rows alts) /\
  length (alternates_to_rows alts) = length alts.
Proof.
  repeat split.
  - unfold events_to_rows. apply Forall_flat_map, Forall_forall.
    intros ev _. apply Forall_map, Forall_forall. intros h _. reflexivity.
  - unfold events_to_rows. rewrite flat_map_length_sum. f_equal.
    apply map_ext. intros ev. apply length_map.
  - unfold alternates_to_rows. apply Forall_map, Forall_forall.
    intros a _. reflexivity.
  - apply length_map.
Qed.

Lemma fixed_rows_id headers rows :
  Forall (fun r => length r = length headers) rows ->
  fixed_rows headers rows = rows.
Proof.
  unfold fixed_rows. induction 1 as [|r rows Hr _ IH]; simpl; auto.
  rewrite Hr, Nat.sub_diag, IH. simpl. now rewrite app_nil_r.
Qed.

(** X11.  The padding of [dataframe_from_rows] never shortens a row and
    never changes its cells: a padded row is the row followed by empty
    cells, at least as wide as the header.  On the rows of the heats and of
    the alternates it changes nothing. *)
Theorem fixed_rows_pads (headers : list str) (rows : list (list str))
    (evs : list Event) (alts : list AlternateEntry) :
  Forall2 (fun r r' => firstn (length r) r' = r /\
                       length r' = Nat.max (length r) (length headers) /\
                       Forall (fun cell => cell = []) (skipn (length r) r'))
          rows (fixed_rows headers rows) /\
  fixed_rows HEATS_HEADERS (events_to_rows evs) = events_to_rows evs /\
  fixed_rows ALT_HEADERS (alternates_to_rows alts) = alternates_to_rows alts.
Proof.
  split; [|split].
  - unfold fixed_rows. induction rows as [|r rows IH]; simpl; constructor; auto.
    split; [|split].
    + rewrite firstn_app, Nat.sub_diag, firstn_all. simpl. apply app_nil_r.
    + rewrite length_app, repeat_length. lia.
    + rewrite skipn_app, Nat.sub_diag, skipn_all. simpl.
      apply Forall_forall. intros x Hx. apply list_elem_of_In in Hx.
      now apply repeat_spec in Hx.
  - apply fixed_rows_id. unfold events_to_rows.
    apply Forall_flat_map, Forall_forall.
    intros ev _. apply Forall_map, Forall_forall. intros h _. reflexivity.
  - apply fixed_rows_id. unfold alternates_to_rows.
    apply Forall_map, Forall_forall. intros a _. reflexivity.
Qed.

Lemma heat_row_lane_column ev h (i : nat) :
  (i < 10)%nat ->
  nth (6 + i) (heat_row ev h) [] = default [] (lanes h !! Z.of_nat i).
Proof.
  intros Hi. unfold heat_row.
  do 10 (destruct i as [|i]; [reflexivity|]). lia.
Qed.

Lemma heat_row_lane ev h (k : Z) nm :
  heat_ok h -> lanes h !! k = Some nm ->
  nth (6 + Z.to_nat k) (heat_row ev h) [] = nm.
Proof.
  intros Hok Hk. pose proof (Hok k nm Hk) as Hr. simpl in Hr.
  rewrite heat_row_lane_column by lia.
  rewrite Z2Nat.id by lia. now rewrite Hk.
Qed.

(** X12.  No lane is lost between parsing and the table: in every document
    the state machine builds, a swimmer recorded in lane [k] of a heat is
    the cell of column [6 + k] of that heat's row. *)
Theorem recorded_lanes_reach_the_table (cap : option nat) (lines : list str) :
  Forall (fun ev =>
            Forall (fun h =>
                      map_Forall (fun (k : Z) nm =>
                                    nth (6 + Z.to_nat k) (heat_row ev h) [] = nm)
                                 (lanes h))
                   (heats ev))
         (fst (parse_lines cap lines)).
Proof.
  assert (H : Forall event_ok (fst (parse_lines cap lines))).
  { apply events_invariant.
    - intros. constructor.
    - intros line ev l H _ _ _. unfold event_ok in *. cbn [heats with_heats].
      apply Forall_app. split; [exact H|]. apply Forall_singleton.
      apply map_Forall_empty.
    - intros line ev lane nm i H Hl. unfold event_ok in *. cbn [heats with_heats].
      apply Forall_alter; [exact H|]. intros h _ Hh.
      apply set_lane_ok; [|exact Hh]. eapply parse_lane_line_range, Hl. }
  eapply Forall_impl; [exact H|]. intros ev Hev.
  eapply Forall_impl; [exact Hev|]. intros h Hh k nm Hk.
  now apply heat_row_lane.
Qed.

(* ===================================================================== *)
(** ** The fields of an event header *)
(* ===================================================================== *)

Lemma search_go_sound ic r q : forall p m,
  search_go ic r p q = Some m -> exists p' q', match_at ic r p' q' = Some m.
Proof.
  induction q as [|c q IH]; intros p m H; simpl in H.
  - destruct (match_at ic r p []) eqn:E; [|discriminate].
    injection H as <-. eauto.
  - destruct (match_at ic r p (c :: q)) eqn:E.
    + injection H as <-. eauto.
    + eapply IH, H.
Qed.

Lemma fold_digits_nonneg ds : forall acc,
  (0 <= acc)%Z -> forallb Py.is_digit ds = true ->
  (0 <= fold_left (fun a c => 10 * a + Py.digit_val c) ds acc)%Z.
Proof.
  induction ds as [|c ds IH]; intros acc Hacc H; simpl in *; [lia|].
  apply andb_true_iff in H as [Hc Hd]. apply IH; auto.
  apply in_range_bounds in Hc. unfold Py.digit_val. lia.
Qed.

Lemma int_nonneg ds : forallb Py.is_digit ds = true -> (0 <= Py.int ds)%Z.
Proof. intros H. apply fold_digits_nonneg; [lia | exact H]. Qed.

Lemma strip_nonempty x :
  x <> [] -> headp Py.is_space (rev x) = false -> Py.strip x <> [].
Proof.
  intros Hne Hl E. destruct (strip_span x) as (w0 & w1 & Hx & H0 & H1).
  rewrite E in Hx. simpl in Hx.
  assert (Hall : allsp x = true).
  { rewrite Hx. unfold allsp in *. now rewrite forallb_app, H0, H1. }
  rewrite allsp_last in Hl by auto. discriminate.
Qed.

Lemma digit_not_lower a : Py.is_digit a = true -> Py.is_lower a = false.
Proof. by_char a. Qed.

Lemma digits_no_lower ds :
  forallb Py.is_digit ds = true ->
  forallb (fun c => negb (Py.is_lower c)) ds = true.
Proof.
  induction ds as [|c ds IH]; simpl; auto. intros H.
  apply andb_true_iff in H as [Hc Hd]. now rewrite (digit_not_lower c), IH.
Qed.

Lemma stroke_to_code_no_lower x :
  forallb (fun c => negb (Py.is_lower c)) (stroke_to_code x) = true.
Proof.
  unfold stroke_to_code. repeat case_match; try reflexivity.
  apply upper_no_lower.
Qed.

(** Group 1 of the event-header pattern is digits, and group 3 does not
    strip to nothing when the subject does not end with whitespace. *)
Lemma re_event_groups y m :
  match_ true re_event y = Some m ->
  headp Py.is_space (rev y) = false ->
  forallb Py.is_digit (group m 1) = true /\ Py.strip (group m 3) <> [].
Proof.
  intros H Hlast. apply match_at_sound in H as (st' & w & Hd & _ & _ & ->).
  cbn [den re_event cat plus star alts] in Hd.
  destruct Hd as (st0 & [_ ->] & st1 & Hev & st2 & Hw1 & st3 &
                  (st4 & Hds & ->) & st5 & Hw2 & st6 & (st7 & Hg & ->) &
                  st8 & Hw3 & st9 & (st10 & Hrest & ->) & Heol & ->).
  apply den_span in Hev as (ev & Hs0 & Hp0).
  destruct Hw1 as (w1 & Hs1 & Hp1 & Hc1 & Hw1 & Hl1 & _).
  destruct Hds as (ds & Hs2 & Hp2 & Hc2 & Hds & Hl2 & _).
  destruct Hw2 as (w2 & Hs3 & Hp3 & Hc3 & Hw2 & Hl3 & _).
  destruct Hw3 as (w3 & Hs4 & Hp4 & Hc4 & Hw3 & Hl4 & _).
  destruct Hrest as (rs & Hs5 & Hp5 & Hc5 & _ & Hl5 & _).
  assert (Hgw : exists gw, suf st5 = gw ++ suf st7 /\ caps st7 = caps st5).
  { destruct Hg as [Hg | [Hg | [Hg | [Hg | Hg]]]];
      apply den_lit in Hg as (gw & Hs & _ & Hc & _); eauto. }
  destruct Hgw as (gw & Hs6 & Hgc).
  cbn [pre suf caps] in *.
  unfold group. cbn [m_caps lookup_cap Nat.eqb].
  rewrite Hc5, Hc4. cbn [lookup_cap Nat.eqb]. rewrite Hgc, Hc3.
  cbn [lookup_cap Nat.eqb]. rewrite Hp2, Hp5, !consumed_app.
  split; [now apply cs_digits_ci|].
  assert (Hy : y = (ev ++ w1 ++ ds ++ w2 ++ gw ++ w3) ++ rs ++ suf st10).
  { rewrite Hs0, Hs1, Hs2, Hs3, Hs6, Hs4, Hs5, <- !app_assoc. reflexivity. }
  assert (Hend : suf st10 = []).
  { destruct (suf st10) as [|c q] eqn:E; [reflexivity|].
    exfalso. assert (Hsp : allsp (c :: q) = true) by (apply at_eol_allsp, Heol).
    rewrite Hy, app_assoc, headp_rev_app in Hlast by discriminate.
    rewrite allsp_last in Hlast by (auto; discriminate). discriminate. }
  rewrite Hend, app_nil_r in Hy.
  apply strip_nonempty; [now apply nonempty_length|].
  rewrite Hy, headp_rev_app in Hlast by now apply nonempty_length.
  exact Hlast.
Qed.

(** Group 1 of the two distance patterns is a non-empty run of digits. *)
Lemma re_dist_lc_group m p q :
  match_at true re_dist_lc p q = Some m ->
  group m 1 <> [] /\ forallb Py.is_digit (group m 1) = true.
Proof.
  intros H. apply match_at_sound in H as (st' & w & Hd & _ & _ & ->).
  cbn [den re_dist_lc cat plus] in Hd.
  destruct Hd as (st1 & (st2 & Hds & ->) & st3 & Hw1 & st4 & Hlc & st5 & Hw2 &
                  st6 & Hm & st7 & Hw3 & st8 & (st9 & Hr & ->) & _ & ->).
  destruct Hds as (ds & _ & Hp & _ & Hds & Hl & _).
  destruct Hw1 as (w1 & _ & _ & Hc1 & _).
  apply den_lit in Hlc as (x1 & _ & _ & Hc2 & _).
  destruct Hw2 as (w2 & _ & _ & Hc3 & _).
  apply den_lit in Hm as (x2 & _ & _ & Hc4 & _).
  destruct Hw3 as (w3 & _ & _ & Hc5 & _).
  destruct Hr as (rs & _ & _ & Hc6 & _).
  cbn [pre suf caps] in *.
  unfold group. cbn [m_caps lookup_cap Nat.eqb].
  rewrite Hc6, Hc5, Hc4, Hc3, Hc2, Hc1. cbn [lookup_cap Nat.eqb].
  rewrite Hp, consumed_app.
  split; [now apply nonempty_length | now apply cs_digits_ci].
Qed.

Lemma re_dist_group m p q :
  match_at true re_dist p q = Some m ->
  group m 1 <> [] /\ forallb Py.is_digit (group m 1) = true.
Proof.
  intros H. apply match_at_sound in H as (st' & w & Hd & _ & _ & ->).
  cbn [den re_dist cat plus] in Hd.
  destruct Hd as (st1 & (st2 & Hds & ->) & st3 & Hw1 & st4 & Hm & st5 & Hw2 &
                  st6 & (st7 & Hr & ->) & _ & ->).
  destruct Hds as (ds & _ & Hp & _ & Hds & Hl & _).
  destruct Hw1 as (w1 & _ & _ & Hc1 & _).
  apply den_lit in Hm as (x2 & _ & _ & Hc2 & _).
  destruct Hw2 as (w2 & _ & _ & Hc3 & _).
  destruct Hr as (rs & _ & _ & Hc4 & _).
  cbn [pre suf caps] in *.
  unfold group. cbn [m_caps lookup_cap Nat.eqb].
  rewrite Hc4, Hc3, Hc2, Hc1. cbn [lookup_cap Nat.eqb].
  rewrite Hp, consumed_app.
  split; [now apply nonempty_length | now apply cs_digits_ci].
Qed.

Lemma no_lower_app a b :
  forallb (fun c => negb (Py.is_lower c)) a = true ->
  forallb (fun c => negb (Py.is_lower c)) b = true ->
  forallb (fun c => negb (Py.is_lower c)) (a ++ b) = true.
Proof. intros Ha Hb. now rewrite forallb_app, Ha, Hb. Qed.

Lemma upper_nonempty x : x <> [] -> Py.upper x <> [].
Proof. destruct x; [contradiction | discriminate]. Qed.

(** X13.  Every recognised event header gives a number that is not
    negative, an event code that is not empty and has no lower case
    letter, and an age group without whitespace at its ends. *)
Theorem event_header_fields (line : str) (n : Z) (g c a : str) :
  parse_event_header line = Some (n, g, c, a) ->
  (0 <= n)%Z /\ c <> [] /\
  forallb (fun ch => negb (Py.is_lower ch)) c = true /\
  Py.strip a = a.
Proof.
  unfold parse_event_header.
  destruct (match_ true re_event (squeeze (Py.strip line))) as [m|] eqn:E;
    [|discriminate].
  apply re_event_groups in E as [Hd Hrest];
    [|rewrite squeeze_strip; apply join_tokens_last, split_tokens].
  set (rest := Py.strip (group m 3)) in *.
  assert (Hm2 : forall m2,
            match search true re_dist_lc rest with
            | Some m2 => Some m2
            | None => search true re_dist rest
            end = Some m2 ->
            group m2 1 <> [] /\ forallb Py.is_digit (group m2 1) = true).
  { intros m2 H. destruct (search true re_dist_lc rest) as [m2'|] eqn:E1.
    - injection H as <-. apply search_go_sound in E1 as (p & q & E1).
      eapply re_dist_lc_group, E1.
    - apply search_go_sound in H as (p & q & H). eapply re_dist_group, H. }
  destruct (match search true re_dist_lc rest with
            | Some m2 => Some m2
            | None => search true re_dist rest
            end) as [m2|].
  - destruct (Hm2 m2 eq_refl) as [Hne Hdig].
    intros [= <- <- <- <-]. split; [now apply int_nonneg|]. split; [|split].
    + destruct (group m2 1); [contradiction | discriminate].
    + apply no_lower_app; [now apply digits_no_lower|].
      apply no_lower_app; [apply stroke_to_code_no_lower|].
      destruct (search true re_multiclass _); reflexivity.
    + apply strip_idem.
  - intros [= <- <- <- <-]. split; [now apply int_nonneg|]. split; [|split].
    + now apply upper_nonempty.
    + apply upper_no_lower.
    + reflexivity.
Qed.

Lemma event_header_fields_witness :
  parse_event_header (s "event 12  mixed 12 & under 200 lc meter medley")
  = Some (12%Z, s "X", s "200IM", s "12 & under") /\
  (0 <= 12)%Z /\ s "200IM" <> [] /\ Py.strip (s "12 & under") = s "12 & under".
Proof.
  assert (E : parse_event_header
                (s "event 12  mixed 12 & under 200 lc meter medley")
              = Some (12%Z, s "X", s "200IM", s "12 & under"))
    by (vm_compute; reflexivity).
  split; [exact E|].
  destruct (event_header_fields _ _ _ _ _ E) as (H1 & H2 & _ & H4). auto.
Defined.

(* ===================================================================== *)
(** ** Alternate rows with an age, and lane rows *)
(* ===================================================================== *)














(* ===================================================================== *)
(** ** Choosing a PDF *)
(* ===================================================================== *)

Lemma digit_char_val d :
  (0 <= d <= 9)%Z ->
  Py.digit_val (Py.digit_char d) = d /\ Py.is_digit (Py.digit_char d) = true.
Proof.
  intros H.
  assert (Hc : (d = 0 \/ d = 1 \/ d = 2 \/ d = 3 \/ d = 4 \/ d = 5 \/ d = 6 \/
                d = 7 \/ d = 8 \/ d = 9)%Z) by lia.
  destruct Hc as [-> | [-> | [-> | [-> | [-> | [-> | [-> | [-> | [-> | ->]]]]]]]]];
    split; reflexivity.
Qed.

(** The decimal digits written by [str]: they are digits, and reading them
    after a value [v] gives [v] shifted by their number, plus [n]. *)
Lemma digits_go_spec fuel : forall n acc,
  (1 <= fuel)%nat -> (0 <= n < 2 ^ Z.of_nat fuel)%Z ->
  exists ds, Py.digits_go fuel n acc = ds ++ acc /\ ds <> [] /\
             forallb Py.is_digit ds = true /\
             forall v, fold_left (fun a c => 10 * a + Py.digit_val c)%Z ds v
                       = (v * 10 ^ Z.of_nat (length ds) + n)%Z.
Proof.
  induction fuel as [|f IH]; intros n acc Hf Hn.
  - lia.
  - cbn [Py.digits_go].
    assert (Hmod : (0 <= n mod 10 <= 9)%Z) by (pose proof (Z.mod_pos_bound n 10); lia).
    destruct (digit_char_val _ Hmod) as [Hv Hd].
    destruct (n <? 10)%Z eqn:E.
    + apply Z.ltb_lt in E. exists [Py.digit_char (n mod 10)].
      split; [reflexivity|]. split; [discriminate|].
      split; [simpl; now rewrite Hd|].
      intros v. simpl. rewrite Hv, Z.mod_small by lia. lia.
    + apply Z.ltb_ge in E.
      assert (Hdiv : (0 <= n / 10 < 2 ^ Z.of_nat f)%Z).
      { split; [apply Z.div_pos; lia|].
        rewrite Nat2Z.inj_succ, Z.pow_succ_r in Hn by lia.
        apply Z.div_lt_upper_bound; lia. }
      assert (Hf1 : (1 <= f)%nat).
      { destruct f; [simpl in Hdiv; pose proof (Z.div_le_lower_bound n 10 1); lia | lia]. }
      destruct (IH (n / 10)%Z (Py.digit_char (n mod 10) :: acc) Hf1 Hdiv)
        as (ds & -> & Hne & Hall & Hfold).
      exists (ds ++ [Py.digit_char (n mod 10)]).
      rewrite <- app_assoc. split; [reflexivity|]. split; [|split].
      * destruct ds; discriminate.
      * rewrite forallb_app, Hall. simpl. now rewrite Hd.
      * intros v. rewrite fold_left_app, Hfold. simpl. rewrite Hv.
        rewrite length_app, Nat2Z.inj_add. simpl.
        rewrite Z.pow_add_r by lia.
        pose proof (Z.div_mod n 10). lia.
Qed.

(** [int(str(n)) = n], and [str(n)] is a non-empty run of digits. *)
Lemma str_of_nonneg_spec n :
  (0 <= n)%Z ->
  Py.int (Py.str_of_nonneg n) = n /\ Py.str_of_nonneg n <> [] /\
  forallb Py.is_digit (Py.str_of_nonneg n) = true.
Proof.
  intros Hn. unfold Py.str_of_nonneg.
  assert (Hb : (0 <= n < 2 ^ Z.of_nat (S (Z.to_nat (Z.log2 n))))%Z).
  { split; [exact Hn|].
    rewrite Nat2Z.inj_succ, Z2Nat.id by apply Z.log2_nonneg.
    destruct (Z.eq_dec n 0%Z) as [-> | Hz]; [reflexivity|].
    apply Z.log2_spec. lia. }
  assert (Hf : (1 <= S (Z.to_nat (Z.log2 n)))%nat) by lia.
  destruct (digits_go_spec _ n [] Hf Hb) as (ds & -> & Hne & Hall & Hfold).
  rewrite app_nil_r. split; [|split; auto].
  unfold Py.int. rewrite Hfold. lia.
Qed.

Lemma strip_digits ds :
  ds <> [] -> forallb Py.is_digit ds = true -> Py.strip ds = ds.
Proof.
  intros Hne Hd. pose proof (digits_nosp _ Hd) as Hn.
  assert (Ht : token ds) by (split; auto).
  apply strip_id; [now apply token_head | now apply token_last].
Qed.

Lemma isdigit_digits ds :
  ds <> [] -> forallb Py.is_digit ds = true -> Py.isdigit ds = true.
Proof. intros Hne Hd. destruct ds; [contradiction | exact Hd]. Qed.

(** X16.  Choosing a PDF.  Whatever is typed, the function returns only a
    PDF of the list, and never fails with an index out of range; with an
    empty list it raises [ValueError].  Typing the number shown for a PDF
    selects that PDF: for a list of [pdfs] and every [i] from 1 to its
    length, the answer [str(i)] returns [pdfs[i-1]]. *)
Theorem prompt_selects_the_numbered_pdf {Path : Type} (name : Path -> str)
    (pdfs : list Path) :
  (forall typed p,
     snd (_prompt_user_to_select_pdf name pdfs typed) = Ok p -> In p pdfs) /\
  (forall typed,
     snd (_prompt_user_to_select_pdf name pdfs typed) <> Raise IndexError) /\
  (pdfs = [] ->
   forall typed, _prompt_user_to_select_pdf name pdfs typed = ([], Raise ValueError)) /\
  (forall (i : nat) p,
     pdfs !! i = Some p ->
     snd (_prompt_user_to_select_pdf name pdfs (Py.str_of_int (Z.of_nat i + 1)))
     = Ok p).
Proof.
  assert (Hin : forall n p, pdfs !! n = Some p -> In p pdfs).
  { intros n p H. apply list_elem_of_In. eapply list_elem_of_lookup_2, H. }
  repeat split.
  - intros typed p. unfold _prompt_user_to_select_pdf.
    destruct pdfs as [|p0 [|p1 ps]]; cbn [snd]; [discriminate | |].
    + intros [= <-]. now left.
    + repeat case_match; cbn [snd]; try discriminate.
      intros [= <-]. eapply Hin; eauto.
  - intros typed. unfold _prompt_user_to_select_pdf.
    destruct pdfs as [|p0 [|p1 ps]]; cbn [snd]; try discriminate.
    destruct (negb _); cbn [snd]; [discriminate|].
    destruct (_ || _) eqn:E; cbn [snd]; [discriminate|].
    apply orb_false_iff in E as [E1 E2].
    apply Z.ltb_ge in E1. apply Z.ltb_ge in E2.
    destruct (lookup_lt_is_Some_2 (p0 :: p1 :: ps)
                (Z.to_nat (Py.int (Py.strip typed) - 1))) as [p Hp].
    { rewrite <- Nat2Z.id. apply Z2Nat.inj_lt; lia. }
    rewrite Hp. discriminate.
  - intros -> typed. reflexivity.
  - intros i p Hp.
    assert (Hlt : (i < length pdfs)%nat) by (eapply lookup_lt_Some, Hp).
    destruct (str_of_nonneg_spec (Z.of_nat i + 1) ltac:(lia)) as (Hint & Hne & Hd).
    unfold Py.str_of_int.
    assert ((Z.of_nat i + 1 <? 0)%Z = false) as -> by (apply Z.ltb_ge; lia).
    unfold _prompt_user_to_select_pdf.
    destruct pdfs as [|p0 [|p1 ps]]; [discriminate | |].
    + destruct i; [|simpl in Hlt; lia]. simpl in Hp. now injection Hp as ->.
    + rewrite strip_digits, isdigit_digits, Hint by auto. cbn [negb].
      assert ((Z.of_nat i + 1 <? 1)%Z = false) as -> by (apply Z.ltb_ge; lia).
      assert ((Z.of_nat (length (p0 :: p1 :: ps)) <? Z.of_nat i + 1)%Z = false)
        as -> by (apply Z.ltb_ge; lia).
      cbn [orb snd].
      replace (Z.to_nat (Z.of_nat i + 1 - 1)) with i by lia.
      now rewrite Hp.
Qed.

Lemma prompt_selects_the_numbered_pdf_witness :
  [s "a.pdf"; s "b.pdf"; s "c.pdf"] !! 1%nat = Some (s "b.pdf") /\
  Py.str_of_int 2%Z = s "2" /\
  snd (_prompt_user_to_select_pdf (fun p => p) [s "a.pdf"; s "b.pdf"; s "c.pdf"]
                                  (s "2"))
  = Ok (s "b.pdf") /\
  In (s "b.pdf") [s "a.pdf"; s "b.pdf"; s "c.pdf"].
Proof.
  split; [reflexivity|]. split; [reflexivity|].
  pose proof (prompt_selects_the_numbered_pdf (fun p : str => p)
                [s "a.pdf"; s "b.pdf"; s "c.pdf"]) as (H1 & _ & _ & H4).
  assert (E := H4 1%nat (s "b.pdf") eq_refl).
  split; [exact E|]. exact (H1 _ _ E).
Defined.

(* ===================================================================== *)
(** ** Heat headers by their tokens *)
(* ===================================================================== *)

Lemma eqb_char_refl a : Py.eqb_char a a = true.
Proof. apply N.eqb_refl. Qed.







Lemma cs_space_ci a : cs_match true CSpace a = Py.is_space a.
Proof.
  unfold cs_match. cbn [cs_base andb].
  rewrite is_space_lower, is_space_upper. now destruct (Py.is_space a).
Qed.

Lemma forallb_cs_space_ci w : allsp w = true -> forallb (cs_match true CSpace) w = true.
Proof.
  unfold allsp. induction w as [|c w IH]; simpl; auto. intros H.
  apply andb_true_iff in H as [Hc Hw]. now rewrite cs_space_ci, Hc, IH.
Qed.





(* ===================================================================== *)
(** ** The headings of the alternates *)
(* ===================================================================== *)

Lemma split_go_cur x : forall cur,
  cur <> [] -> exists t more, Py.split_go cur x = (rev cur ++ t) :: more.
Proof.
  induction x as [|c x IH]; intros cur Hc; simpl.
  - destruct cur; [contradiction|]. exists [], []. now rewrite app_nil_r.
  - destruct (Py.is_space c).
    + destruct cur; [contradiction|]. exists [], (Py.split_go [] x).
      now rewrite app_nil_r.
    + destruct (IH (c :: cur) ltac:(discriminate)) as (t & more & ->).
      exists (c :: t), more. simpl. now rewrite <- app_assoc.
Qed.

Lemma startswith_app p x : Py.startswith p (p ++ x) = true.
Proof. induction p as [|a p IH]; simpl; auto. now rewrite eqb_char_refl. Qed.

Lemma startswith_split p : forall x,
  Py.startswith p x = true -> exists r, x = p ++ r.
Proof.
  induction p as [|a p IH]; intros x H; simpl in *; [now exists x|].
  destruct x as [|b x]; [discriminate|].
  apply andb_true_iff in H as [Ha Hp]. apply eqb_char_eq in Ha. subst.
  destruct (IH x Hp) as (r & ->). now exists r.
Qed.

(** A prefix without whitespace survives the squeeze, up to case. *)
Lemma startswith_squeeze p line :
  p <> [] -> nosp p = true ->
  Py.startswith p (Py.lower line) = true ->
  Py.startswith p (Py.lower (squeeze (Py.strip line))) = true.
Proof.
  intros Hne Hp H. apply startswith_split in H as (r & Hr).
  unfold Py.lower in Hr. apply map_eq_app in Hr as (u & x & -> & Hu & _).
  assert (Hun : nosp u = true) by (rewrite <- nosp_lower; unfold Py.lower; now rewrite Hu).
  assert (Hue : u <> []) by (intros ->; simpl in Hu; congruence).
  rewrite squeeze_strip. unfold Py.split.
  rewrite split_go_nosp by exact Hun. rewrite app_nil_r.
  destruct (split_go_cur x (rev u)) as (t & more & ->).
  { intros E. apply Hue. apply (f_equal (@rev ascii)) in E.
    now rewrite rev_involutive in E. }
  rewrite rev_involutive.
  assert (Hj : exists z, Py.join (s " ") ((u ++ t) :: more) = u ++ z).
  { destruct more; simpl; rewrite <- ?app_assoc; eauto. }
  destruct Hj as (z & ->). unfold Py.lower. rewrite map_app, Hu.
  apply startswith_app.
Qed.

(** X18.  Every alternate of a document stands under a heading: its group
    is a line that starts with the word alternates, in any case, with its
    whitespace normalised. *)
Theorem alternates_stand_under_a_heading (cap : option nat) (lines : list str) :
  Forall (fun a =>
            Py.startswith (s "alternates") (Py.lower (alt_group a)) = true /\
            alt_group a = Py.join (s " ") (Py.split (alt_group a)))
         (snd (parse_lines cap lines)).
Proof.
  set (G := fun g : str =>
              Py.startswith (s "alternates") (Py.lower g) = true /\
              g = Py.join (s " ") (Py.split g)).
  set (I := fun st : pstate =>
              Forall (fun a => G (alt_group a)) (alternates st) /\
              (in_alternates st = true -> G (current_alt_group st))).
  assert (Hstep : forall st raw, I st -> I (step cap st raw)).
  { intros st raw [Ha Hg].
    destruct (step_cases cap st raw)
      as [[_ ->] | [(n & g & c & a & _ & ->) | [(ev & _ & _ & Hs & ->) |
         [(ev & l & n & _ & _ & _ & _ & _ & ->) |
         [(ev & l & _ & _ & _ & _ & ->) |
         [(ev & row & h & _ & Hin & _ & _ & _ & _ & ->) |
          (ev & lane & nm & i & _ & _ & _ & _ & _ & _ & ->)]]]]]];
      split; cbn [alternates in_alternates current_alt_group];
      try exact Ha; try discriminate; auto.
    - intros _. split.
      + apply startswith_squeeze; [discriminate | reflexivity | exact Hs].
      + rewrite squeeze_strip, split_join by apply split_tokens. reflexivity.
    - apply Forall_app. split; [exact Ha|]. apply Forall_singleton.
      destruct row as [[[rk nm] tm] pr]. cbn [make_alternate alt_group].
      now apply Hg. }
  assert (Hfold : forall ls st, I st -> I (fold_left (step cap) ls st)).
  { induction ls as [|l ls IH]; intros st Hst; simpl; auto. }
  destruct (Hfold lines init_state) as [H _].
  { split; [constructor | discriminate]. }
  exact H.
Qed.

(* ===================================================================== *)
(** ** Stroke codes *)
(* ===================================================================== *)

Lemma lstrip_map (f : ascii -> bool) (g : ascii -> ascii) x :
  (forall c, f (g c) = f c) ->
  Py.lstrip_by f (map g x) = map g (Py.lstrip_by f x).
Proof.
  intros Hfg. induction x as [|c x IH]; simpl; auto.
  rewrite Hfg. now destruct (f c).
Qed.

Lemma strip_lower x : Py.strip (Py.lower x) = Py.lower (Py.strip x).
Proof.
  unfold Py.strip, Py.rstrip_by, Py.lower.
  rewrite lstrip_map by apply is_space_lower.
  rewrite <- map_rev, lstrip_map by apply is_space_lower.
  now rewrite map_rev.
Qed.

Lemma allsp_lower w : allsp (Py.lower w) = allsp w.
Proof.
  unfold allsp. induction w as [|c w IH]; simpl; auto.
  now rewrite is_space_lower, IH.
Qed.

Lemma headp_space_lower r :
  headp Py.is_space (Py.lower r) = headp Py.is_space r.
Proof. destruct r; simpl; auto using is_space_lower. Qed.

(** Deleting the whitespace of a text commutes with lower-casing it, and
    leaves no whitespace. *)
Lemma sub_ws_lower x : forall p p',
  Py.lower (sub_go false re_ws [] 0 p x)
  = sub_go false re_ws [] 0 p' (Py.lower x) /\
  nosp (sub_go false re_ws [] 0 p x) = true.
Proof.
  induction x as [|ws r Hne Hws Hr IH|t r [Hne Ht] Hr IH] using run_ind;
    intros p p'.
  - split; reflexivity.
  - rewrite sub_ws_run by auto. unfold Py.lower at 2. rewrite map_app.
    fold (Py.lower ws). fold (Py.lower r).
    rewrite sub_ws_run;
      [| destruct ws; [contradiction | discriminate]
       | now rewrite allsp_lower | now rewrite headp_space_lower].
    cbn [expand flat_map app]. apply IH.
  - rewrite sub_ws_nosp by auto. unfold Py.lower at 2. rewrite map_app.
    fold (Py.lower t). fold (Py.lower r).
    rewrite sub_ws_nosp by now rewrite nosp_lower.
    destruct (IH (rev t ++ p) (rev (Py.lower t) ++ p')) as [IH1 IH2].
    split.
    + unfold Py.lower at 1. rewrite map_app. fold (Py.lower t).
      f_equal. exact IH1.
    + unfold nosp in *. now rewrite forallb_app, Ht, IH2.
Qed.

Lemma upper_of_lower_char c : Py.upper_char (Py.lower_char c) = Py.upper_char c.
Proof. by_char c. Qed.

Lemma upper_of_lower x : Py.upper (Py.lower x) = Py.upper x.
Proof.
  unfold Py.upper, Py.lower. rewrite map_map. apply map_ext, upper_of_lower_char.
Qed.

Lemma nosp_upper w : nosp (Py.upper w) = nosp w.
Proof.
  unfold nosp. induction w as [|c w IH]; simpl; auto.
  now rewrite is_space_upper, IH.
Qed.

Lemma stroke_to_code_nosp x : nosp (stroke_to_code x) = true.
Proof.
  unfold stroke_to_code. repeat case_match; try reflexivity.
  rewrite nosp_upper. apply (sub_ws_lower x [] []).
Qed.

(** X19.  Stroke codes.  The code of a stroke does not depend on the case
    of its letters: two stroke texts that are equal up to case have the
    same code.  The code never holds whitespace or a lower case letter. *)
Theorem stroke_code_ignores_case (x y : str) :
  Py.lower x = Py.lower y ->
  stroke_to_code x = stroke_to_code y /\
  nosp (stroke_to_code x) = true /\
  forallb (fun c => negb (Py.is_lower c)) (stroke_to_code x) = true.
Proof.
  intros H. split; [|split; [apply stroke_to_code_nosp |
                             apply stroke_to_code_no_lower]].
  unfold stroke_to_code.
  rewrite <- !strip_lower, H.
  assert (E : Py.upper (sub false re_ws [] x) = Py.upper (sub false re_ws [] y)).
  { rewrite <- (upper_of_lower (sub false re_ws [] x)).
    rewrite <- (upper_of_lower (sub false re_ws [] y)). unfold sub.
    rewrite (proj1 (sub_ws_lower x [] [])), (proj1 (sub_ws_lower y [] [])).
    now rewrite H. }
  now rewrite E.
Qed.

Lemma stroke_code_ignores_case_witness :
  Py.lower (s "Kick  Drill") = Py.lower (s "kICK  drill") /\
  stroke_to_code (s "Kick  Drill") = stroke_to_code (s "kICK  drill") /\
  stroke_to_code (s "Kick  Drill") = s "KICKDRILL" /\
  stroke_to_code (s "BackStroke") = stroke_to_code (s "BACKSTROKE").
Proof.
  split; [reflexivity|]. split; [|split].
  - apply (stroke_code_ignores_case (s "Kick  Drill") (s "kICK  drill")).
    reflexivity.
  - vm_compute. reflexivity.
  - apply (stroke_code_ignores_case (s "BackStroke") (s "BACKSTROKE")).
    reflexivity.
Defined.
